(** * Impulcifer: a shallow embedding of [impulcifer.py]

    The signal-processing steps of the HRIR pipeline ([split_recording],
    [normalize], [tail_index], [crop_ir_head], [deconv], [reorder_tracks] and
    the tail-cropping loop of [main]) as Rocq functions, followed by the
    properties established about them.

    Conventions of the embedding:
    - a one-dimensional numpy array is a [list Q]; samples are exact
      rationals, so the rounding of float64 arithmetic on samples is not
      represented;
    - where the code branches on a rounded float -- the silence guard of
      [split_recording] -- the float is an IEEE 754 double ([spec_float]);
    - a two-dimensional array is an [ndarray2]: its row list together with
      the row width [shape1] (numpy keeps the width even when there are no
      rows);
    - a Python exception is a value of [exn]; a function that may raise
      returns a [result];
    - numerical kernels of scipy/numpy whose values are transcendental
      (peak picking, Kaiser window, exponential taper, FFT probe, the
      Savitzky-Golay decay envelope) are arguments of the functions that call
      them, so every statement holds for whatever those kernels return. *)

From Stdlib Require Import String Ascii.
From Stdlib Require Import List ZArith QArith Qabs Qround Bool Arith Lia.
From Stdlib Require Import Permutation.
From Stdlib Require Import SpecFloat.
Import ListNotations.

Local Open Scope string_scope.
Local Open Scope list_scope.
Local Open Scope nat_scope.

(** ** Python values and exceptions *)

Inductive exn : Type :=
  | ValueError (msg : string)
  | TypeError (msg : string)
  | KeyError (key : string)
  | IndexError
  | UnboundLocalError
  | ZeroDivisionError
  | OverflowError (msg : string)
  | OSError (msg : string)
  | NonFinite.
  (* [NonFinite] is not a Python exception: it marks a float result that is
     inf or nan (a division by zero inside numpy), which [Q] cannot hold. *)

Inductive result (A : Type) : Type :=
  | Ok (a : A)
  | Raise (e : exn).

Arguments Ok {A} a.
Arguments Raise {A} e.

Definition bind {A B : Type} (r : result A) (k : A -> result B) : result B :=
  match r with
  | Ok a => k a
  | Raise e => Raise e
  end.

Notation "x <- r ;; k" := (bind r (fun x => k))
  (at level 61, r at next level, right associativity).

(** ** Numbers *)

(** [a < b] and [a > b] on floats, as booleans. *)
Definition Qltb (a b : Q) : bool := negb (Qle_bool b a).

(** Python's [int(x)] on a float: truncation towards zero. *)
Definition py_int (q : Q) : Z := Z.quot (Qnum q) (Zpos (Qden q)).

(** Python's [round(x)] and [np.round(x)]: nearest integer, ties to even. *)
Definition py_round (q : Q) : Z :=
  let f := Qfloor q in
  match Qcompare (q - inject_Z f) (1 # 2) with
  | Lt => f
  | Gt => (f + 1)%Z
  | Eq => if Z.even f then f else (f + 1)%Z
  end.

Definition Qnat (n : nat) : Q := inject_Z (Z.of_nat n).

(** ** Double precision *)

(** Where the code decides on the rounded value of a float operation, the
    [float] is an IEEE 754 binary64 number: a [spec_float] of the Standard
    Library, operated on with precision 53 and maximal exponent 1024. *)

Definition pow2 (e : Z) : Q :=
  match e with
  | Z0 => 1%Q
  | Zpos p => inject_Z (2 ^ Zpos p)
  | Zneg p => (1 # (2 ^ p))%Q
  end.

(** The exact value of a finite double. *)
Definition float_value (x : spec_float) : option Q :=
  match x with
  | S754_zero _ => Some 0%Q
  | S754_finite s m e => Some (inject_Z (cond_Zopp s (Zpos m)) * pow2 e)%Q
  | S754_infinity _ | S754_nan => None
  end.

(** [float(n)] for a Python int: the nearest double, ties to even; an int
    beyond the doubles is refused. *)
Definition float_of_int (n : Z) : result spec_float :=
  match binary_normalize 53 1024 n 0 false with
  | S754_infinity _ => Raise (OverflowError "int too large to convert to float")
  | x => Ok x
  end.

(** [x * n] for a float [x] and an int [n]: the int is converted, the
    product is rounded to the nearest double. *)
Definition float_times_int (x : spec_float) (n : Z) : result spec_float :=
  y <- float_of_int n ;; Ok (SFmul 53 1024 x y).

(** [int(x)] on a float: truncation towards zero of the exact value. *)
Definition int_of_float (x : spec_float) : result Z :=
  match x with
  | S754_nan => Raise (ValueError "cannot convert float NaN to integer")
  | S754_infinity _ =>
      Raise (OverflowError "cannot convert float infinity to integer")
  | S754_zero _ => Ok 0%Z
  | S754_finite s m e =>
      Ok (py_int (inject_Z (cond_Zopp s (Zpos m)) * pow2 e)%Q)
  end.

(** [x != n] for a float [x] and an int [n]: Python compares the exact
    values. *)
Definition float_ne_int (x : spec_float) (n : Z) : bool :=
  match float_value x with
  | Some q => negb (Qeq_bool q (inject_Z n))
  | None => true
  end.

(** The doubles that the literals [0.5], [0.7] and [0.1] denote. *)
Definition double_0_5 : spec_float := S754_finite false 4503599627370496 (-53).

(** ** Sequences: slicing and numpy helpers *)

(** Start or stop of a slice clamped into [0..len], as CPython's
    [PySlice_AdjustIndices] does for step 1. *)
Definition adjust_index (len : nat) (i : Z) : nat :=
  let l := Z.of_nat len in
  let j := if (i <? 0)%Z then (i + l)%Z else i in
  if (j <? 0)%Z then 0 else if (l <=? j)%Z then len else Z.to_nat j.

(** [x[start:]] *)
Definition slice_from {A : Type} (start : Z) (x : list A) : list A :=
  skipn (adjust_index (length x) start) x.

(** [x[:stop]] *)
Definition slice_to {A : Type} (stop : Z) (x : list A) : list A :=
  firstn (adjust_index (length x) stop) x.

(** [x[start:stop]] *)
Definition slice {A : Type} (start stop : Z) (x : list A) : list A :=
  let lo := adjust_index (length x) start in
  let hi := adjust_index (length x) stop in
  firstn (hi - lo) (skipn lo x).

(** [np.zeros(n)] *)
Definition zeros (n : nat) : list Q := repeat 0%Q n.

(** [len(np.nonzero(track)[0]) > 0] *)
Definition nonsilent (track : list Q) : bool :=
  existsb (fun v => negb (Qeq_bool v 0)) track.

(** [np.argmax] scans left to right and keeps the first largest entry;
    [best] at index [besti] is the running maximum, [i] the index of the
    head of [x]. *)
Fixpoint argmax_from (best : Q) (besti i : nat) (x : list Q) : nat :=
  match x with
  | [] => besti
  | v :: t =>
      if Qltb best v then argmax_from v i (S i) t
      else argmax_from best besti (S i) t
  end.

Definition argmax (x : list Q) : option nat :=
  match x with
  | [] => None
  | v :: t => Some (argmax_from v 0 1 t)
  end.

(** [np.argmax] of a boolean array: index of the first [True], 0 when there
    is none. *)
Fixpoint first_true_from (i : nat) (b : list bool) : option nat :=
  match b with
  | [] => None
  | true :: _ => Some i
  | false :: t => first_true_from (S i) t
  end.

Definition argmax_bool (b : list bool) : nat :=
  match first_true_from 0 b with
  | Some i => i
  | None => 0
  end.

(** Two-dimensional arrays, tracks on rows. *)
Record ndarray2 : Type := mk_ndarray2 {
  shape1 : nat;
  rows : list (list Q)
}.

Definition shape0 (a : ndarray2) : nat := length (rows a).

Definition wf_ndarray2 (a : ndarray2) : Prop :=
  Forall (fun r => length r = shape1 a) (rows a).

(** [np.vstack] of one-dimensional arrays. *)
Definition vstack (tracks : list (list Q)) : result ndarray2 :=
  match tracks with
  | [] => Raise (ValueError "need at least one array to concatenate")
  | t :: rest =>
      if forallb (fun r => length r =? length t) rest
      then Ok (mk_ndarray2 (length t) tracks)
      else Raise (ValueError "all the input array dimensions except for the concatenation axis must match exactly")
  end.

(** ** Module constants *)

Definition SPEAKER_NAMES : list string :=
  ["FL"; "FR"; "FC"; "BL"; "BR"; "SL"; "SR"].

Definition IR_ORDER : list string :=
  flat_map (fun ch => [(ch ++ "-left")%string; (ch ++ "-right")%string])
           SPEAKER_NAMES.

(** [SPEAKER_DELAYS], in milliseconds. *)
Definition SPEAKER_DELAYS (speaker : string) : option Q :=
  if String.eqb speaker "FL" then Some (107 # 1000)
  else if String.eqb speaker "FR" then Some (107 # 1000)
  else if String.eqb speaker "FC" then Some (214 # 1000)
  else if String.eqb speaker "BL" then Some (107 # 1000)
  else if String.eqb speaker "BR" then Some (107 # 1000)
  else if String.eqb speaker "SL" then Some 0%Q
  else if String.eqb speaker "SR" then Some 0%Q
  else None.

(** ** [split_recording] *)

Definition silence_msg : string :=
  "Silence length must produce full samples with given sampling rate.".

(** [recording[:, start:stop]] *)
Definition slice_cols (start stop : Z) (a : ndarray2) : ndarray2 :=
  mk_ndarray2
    (adjust_index (shape1 a) stop - adjust_index (shape1 a) start)
    (map (slice start stop) (rows a)).

(** [recording[:, start:]] *)
Definition slice_cols_from (start : Z) (a : ndarray2) : ndarray2 :=
  mk_ndarray2
    (shape1 a - adjust_index (shape1 a) start)
    (map (slice_from start) (rows a)).

(** The inner [for column in columns] loop at row index [i]: the left-ear
    row [i] and the right-ear row [i+1] of every column; [column[i+1, :]]
    raises when the row count is odd. *)
Fixpoint ear_pair_rows (columns : list ndarray2) (i : nat)
  : result (list (list Q)) :=
  match columns with
  | [] => Ok []
  | c :: cs =>
      match nth_error (rows c) i, nth_error (rows c) (i + 1) with
      | Some l, Some r => more <- ear_pair_rows cs i ;; Ok (l :: r :: more)
      | _, _ => Raise IndexError
      end
  end.

(** The [while i < recording.shape[0]] loop, [i] advancing by 2. *)
Fixpoint split_rows (columns : list ndarray2) (i steps : nat) (nrows : nat)
  : result (list (list Q)) :=
  match steps with
  | O => Ok []
  | S k =>
      if i <? nrows then
        here <- ear_pair_rows columns i ;;
        rest <- split_rows columns (i + 2) k nrows ;;
        Ok (here ++ rest)
      else Ok []
  end.

(** The guard and [silence_length = int(silence_length * fs)]: the product
    of the float [silence_length] and the int [fs] is a rounded double, and
    it is that double which is compared with its own truncation. *)
Definition silence_samples (silence_length : spec_float) (fs : nat)
  : result Z :=
  product <- float_times_int silence_length (Z.of_nat fs) ;;
  whole <- int_of_float product ;;
  if float_ne_int product whole then Raise (ValueError silence_msg)
  else Ok whole.

(** The product [silence_length * fs], as the code computes it, is the
    whole number [k]. *)
Definition whole_product (silence_length : spec_float) (fs : nat) (k : Z)
  : Prop :=
  exists product q,
    float_times_int silence_length (Z.of_nat fs) = Ok product /\
    float_value product = Some q /\ (q == inject_Z k)%Q.

Definition split_recording (recording test_signal : ndarray2)
  (speakers : list string) (fs : nat) (silence_length : spec_float)
  : result ndarray2 :=
  silence <- silence_samples silence_length fs ;;
  if shape0 recording / 2 =? 0 then Raise ZeroDivisionError
  else
    let n_columns :=
      py_round (Qnat (length speakers) / Qnat (shape0 recording / 2)) in
    let recording := slice_cols_from silence recording in
    let column_size := (silence + Z.of_nat (shape1 test_signal))%Z in
    let columns :=
      map (fun i => slice_cols (Z.of_nat i * column_size)
                               ((Z.of_nat i + 1) * column_size) recording)
          (seq 0 (Z.to_nat n_columns)) in
    tracks <- split_rows columns 0 (shape0 recording) (shape0 recording) ;;
    vstack tracks.

(** Segment [c] of one recorded row: the [column_size] samples that follow
    the initial silence and [c] earlier segments. *)
Definition segment (silence column_size c : nat) (row : list Q) : list Q :=
  firstn column_size (skipn (silence + c * column_size) row).

(** ** [normalize] *)

(** [gain] stands for [10**(target_db / 20)], an irrational number for the
    default [target_db = -0.1]; it is passed in as a rational. *)
Definition normalize (x : ndarray2) (gain : Q) : result ndarray2 :=
  let flat := concat (rows x) in
  match argmax flat with
  | None => Raise (ValueError "attempt to get argmax of an empty sequence")
  | Some arg_max =>
      let peak := Qabs (nth arg_max flat 0%Q) in
      if Qeq_bool peak 0 then Raise NonFinite
      else Ok (mk_ndarray2 (shape1 x)
                 (map (map (fun v => (v / peak * gain)%Q)) (rows x)))
  end.

(** Largest absolute sample value of the whole array (0 for an empty one). *)
Definition peak_magnitude (x : ndarray2) : Q :=
  fold_right (fun v m => if Qltb m (Qabs v) then Qabs v else m) 0%Q
             (concat (rows x)).

(** ** [tail_index] *)

(** Value of the loop variable [i] after
    [for i in range(start, len(rms)): if rms[i] > rms[i-1]: break];
    [cur] is its value so far ([None]: not yet bound). *)
Fixpoint rise_loop (rms : list Q) (i steps : nat) (cur : option nat)
  : option nat :=
  match steps with
  | O => cur
  | S k =>
      if Qltb (nth (i - 1) rms 0%Q) (nth i rms 0%Q) then Some i
      else rise_loop rms (S i) k (Some i)
  end.

(** [tail_ind *= rms_window_size] is taken as the exact product.  The code
    computes a double for a float window size and a wrapping int64 for an
    int one; both equal the exact product as long as it stays below 2^53. *)
Definition tail_index (rms : list Q) (rms_window_size : Q) : result Z :=
  match argmax rms with
  | None => Raise (ValueError "attempt to get argmax of an empty sequence")
  | Some peak_index =>
      match rise_loop rms (peak_index + 1)
                      (length rms - (peak_index + 1)) None with
      | None => Raise UnboundLocalError
      | Some i =>
          let noise_floor := (nth i rms 0 + 3)%Q in
          let tail_ind := argmax_bool (map (fun v => Qltb v noise_floor) rms) in
          Ok (py_int (Qnat tail_ind * rms_window_size))
      end
  end.

(** The noise-floor estimate of [tail_index], on its own. *)
Definition noise_floor_of (rms : list Q) : option Q :=
  match argmax rms with
  | None => None
  | Some peak_index =>
      match rise_loop rms (peak_index + 1)
                      (length rms - (peak_index + 1)) None with
      | None => None
      | Some i => Some (nth i rms 0 + 3)%Q
      end
  end.

(** The tail window as the specification words it: the first window at or
    after the peak-energy window whose level is below the noise floor plus
    3 dB. *)
Definition spec_tail_window (rms : list Q) : option nat :=
  match argmax rms, noise_floor_of rms with
  | Some peak_index, Some noise_floor =>
      first_true_from peak_index
        (map (fun v => Qltb v noise_floor) (skipn peak_index rms))
  | _, _ => None
  end.

(** ** [crop_ir_head] *)

(** [np.max(x)] *)
Definition np_max (x : list Q) : result Q :=
  match x with
  | [] => Raise (ValueError "zero-size array to reduction operation maximum which has no identity")
  | v :: t => Ok (fold_left (fun m w => if Qltb m w then w else m) t v)
  end.

(** [a[:head] *= window], an in-place product on a view: numpy accepts it
    when the window has the shape of the view or broadcasts to it (one
    element), and raises otherwise. *)
Definition imul_head (head : nat) (window x : list Q) : result (list Q) :=
  let view := firstn head x in
  if length window =? length view then
    Ok (map (fun p => (fst p * snd p)%Q) (combine view window) ++ skipn head x)
  else if length window =? 1 then
    Ok (map (fun v => (v * hd 0 window)%Q) view ++ skipn head x)
  else Raise (ValueError "operands could not be broadcast together").

Definition left_first_msg (speaker : string) : string :=
  (speaker ++ " impulse response has lower delay to left ear than to right.")%string.

Definition right_first_msg (speaker : string) : string :=
  (speaker ++ " impulse response has lower delay to right ear than to left.")%string.

(** [speaker[1] == c] *)
Definition second_char_is (speaker : string) (c : ascii) : result bool :=
  match String.get 1 speaker with
  | Some a => Ok (Ascii.eqb a c)
  | None => Raise IndexError
  end.

(** [head_ms * fs // 1000] *)
Definition head_room (fs head_ms : nat) : nat := head_ms * fs / 1000.

(** [int(np.round(SPEAKER_DELAYS[speaker] / 1000 * fs)) + head] *)
Definition channel_delay (speaker : string) (fs head_ms : nat) : result Z :=
  match SPEAKER_DELAYS speaker with
  | None => Raise (KeyError speaker)
  | Some d =>
      Ok (py_round (d / 1000 * Qnat fs) + Z.of_nat (head_room fs head_ms))%Z
  end.

Section HeadAligner.

(** [signal.find_peaks(x, height=h)[0]]: the indices of the local maxima
    of [x] that are at least [h] high, in increasing order. *)
Variable find_peaks : list Q -> Q -> list nat.

(** [scipy.signal.kaiser(M, beta)]: a window of [M] samples. *)
Variable kaiser : nat -> Q -> list Q.

(** [signal.find_peaks(x / np.max(x), height=0.1)[0][0]].  When the
    maximum is 0 the quotient holds only nan and -inf, among which there is
    no local maximum, and indexing the empty result raises. *)
Definition first_peak (x : list Q) : result nat :=
  m <- np_max x ;;
  if Qeq_bool m 0 then Raise IndexError
  else
    match find_peaks (map (fun v => (v / m)%Q) x) (1 # 10) with
    | [] => Raise IndexError
    | p :: _ => Ok p
    end.

Definition crop_ir_head (left right : list Q) (speaker : string)
  (fs head_ms : nat) : result (list Q * list Q) :=
  peak_left <- first_peak left ;;
  peak_right <- first_peak right ;;
  let pl := Z.of_nat peak_left in
  let pr := Z.of_nat peak_right in
  let itd := Z.abs (pl - pr) in
  let head := head_room fs head_ms in
  delay <- channel_delay speaker fs head_ms ;;
  cropped <-
    (if peak_left <? peak_right then
       is_right <- second_char_is speaker "R" ;;
       if is_right then Raise (ValueError (left_first_msg speaker))
       else Ok (slice_from (pl - delay) left,
                slice_from (pr - (delay + itd)) right)
     else
       is_left <- second_char_is speaker "L" ;;
       if is_left then Raise (ValueError (right_first_msg speaker))
       else Ok (slice_from (pl - (delay + itd)) left,
                slice_from (pr - delay) right)) ;;
  let window := firstn head (kaiser (head * 2) 16) in
  left' <- imul_head head window (fst cropped) ;;
  right' <- imul_head head window (snd cropped) ;;
  Ok (left', right').

End HeadAligner.

(** Exactly [lead] samples of [cropped] precede the sample that sat at index
    [peak] of [original], and from that sample on the two sequences agree. *)
Definition peak_preceded_by (cropped original : list Q) (peak : nat) (lead : Z)
  : Prop :=
  (0 <= lead)%Z /\
  (Z.of_nat (length cropped) = lead + Z.of_nat (length original - peak))%Z /\
  forall j, nth_error cropped (Z.to_nat lead + j) = nth_error original (peak + j).

(** The lead the aligner aims at for the ear peaking at [peak], the other
    ear peaking at [other]: the channel delay for the ear that peaks first
    (or together with the other), and the channel delay plus the interaural
    time difference for the ear that peaks later. *)
Definition required_lead (delay : Z) (peak other : nat) : Z :=
  (delay + Z.of_nat (peak - Nat.min peak other))%Z.

(** The geometric side a speaker label implies, read off its second
    letter as [crop_ir_head] does. *)
Definition right_side (speaker : string) : Prop :=
  String.get 1 speaker = Some "R"%char.

Definition left_side (speaker : string) : Prop :=
  String.get 1 speaker = Some "L"%char.

(** The consistency rule as the specification words it: the ear whose peak
    arrives earlier contradicts the speaker's side. *)
Definition spec_contradicts_side (speaker : string) (peak_left peak_right : nat)
  : Prop :=
  (peak_left < peak_right /\ right_side speaker) \/
  (peak_right < peak_left /\ left_side speaker).

(** A peak detector and a window to run [crop_ir_head] on concrete data:
    strict local maxima in the manner of scipy's [_local_maxima_1d] (a flat
    top is reported at its middle sample, and only when the signal falls
    after it), kept when at least [height] high; and a window of the right
    length. *)
Fixpoint plateau_end (v : Q) (i : nat) (after : list Q) : option nat :=
  match after with
  | [] => None
  | w :: t =>
      if Qeq_bool w v then plateau_end v (S i) t
      else if Qltb w v then Some i
      else None
  end.

Fixpoint local_maxima (prev : Q) (i : nat) (x : list Q) : list nat :=
  match x with
  | [] => []
  | v :: t =>
      (if Qltb prev v then
         match plateau_end v i t with
         | Some r => [(i + r) / 2]
         | None => []
         end
       else []) ++ local_maxima v (S i) t
  end.

Definition scipy_find_peaks (x : list Q) (height : Q) : list nat :=
  match x with
  | [] => []
  | v :: t => filter (fun i => Qle_bool height (nth i x 0%Q)) (local_maxima v 1 t)
  end.

Definition unit_window (M : nat) (beta : Q) : list Q := repeat 1%Q M.

(** ** [deconv] *)

(** Full linear convolution, the value [fftconvolve(a, b, mode='full')]
    approximates: entry [k] is the sum of [a[i] * b[k - i]]. *)
Definition convolve_full (a b : list Q) : list Q :=
  match a, b with
  | [], _ | _, [] => []
  | _, _ =>
      map (fun k =>
             fold_right Qplus 0%Q
               (map (fun i => (nth i a 0 * nth (k - i) b 0)%Q)
                    (filter (fun i => k - i <? length b) (seq 0 (S k)))))
          (seq 0 (length a + length b - 1))
  end.

Definition dquote : string := String (ascii_of_nat 34) EmptyString.

(** The message of the last branch; the source never formats the braces. *)
Definition unsupported_method_msg : string :=
  (dquote ++ "{}" ++ dquote ++ " is not one of the supported " ++ dquote
   ++ "domain" ++ dquote ++ " parameter values " ++ dquote ++ "time" ++ dquote
   ++ " or " ++ dquote ++ "frequency" ++ dquote ++ ".")%string.

Section Deconvolver.

(** [exp_taper fs n t] is the weight [np.exp(float(t) * k)] of sample [t]
    for a reference of [n] samples at rate [fs] ([k] is fixed by the 20 Hz
    and 20 kHz sweep bounds); [probe_magnitude frp] is
    [np.abs(fft(frp)[round(frp.shape[0] / 4)])]; [fft_division] is the
    frequency-domain quotient [np.real(ifft(fft(recording) / fft(test)))]. *)
Variable exp_taper : nat -> nat -> nat -> Q.
Variable probe_magnitude : list Q -> Q.
Variable fft_division : list Q -> list Q -> list Q.

(** [np.flip(test_signal) * c] *)
Definition weighted_flip (test_signal : list Q) (fs : nat) : list Q :=
  let n := length test_signal in
  let c := map (exp_taper fs n) (seq 0 n) in
  map (fun p => (fst p * snd p)%Q) (combine (rev test_signal) c).

(** The filter after [inv_filter /= np.abs(frp[round(frp.shape[0] / 4)])]. *)
Definition inverse_filter (test_signal : list Q) (fs : nat) : list Q :=
  let inv_filter := weighted_flip test_signal fs in
  let frp := convolve_full inv_filter test_signal in
  map (fun v => (v / probe_magnitude frp)%Q) inv_filter.

(** [method] is the Python string; [fs] is [None] when not given.  A zero
    rate stops at [low / fs]; [np.squeeze] turns a one-sample reference into
    a scalar, for which [len] raises; an empty reference is refused by the
    FFT of the normalisation step; a zero probe turns the filter into
    inf/nan. *)
Definition deconv (recording test_signal : list Q) (method : string)
  (fs : option nat) : result (list Q) :=
  if String.eqb method "fft" then
    Ok (fft_division recording test_signal)
  else if String.eqb method "inverse_filter" then
    match fs with
    | None =>
        Raise (TypeError "Sampling rate is required for inverse filter deconvolution.")
    | Some fs =>
        if fs =? 0 then Raise ZeroDivisionError
        else
          let n := length test_signal in
          if n =? 1 then Raise (TypeError "len() of unsized object")
          else if n =? 0 then
            Raise (ValueError "Zero length array: The input array should have no zero length axes")
          else
            let frp :=
              convolve_full (weighted_flip test_signal fs) test_signal in
            if Qeq_bool (probe_magnitude frp) 0 then Raise NonFinite
            else
              let inv_filter := inverse_filter test_signal fs in
              let h := convolve_full recording inv_filter in
              let h := h ++ [0%Q] in
              Ok (slice (Z.of_nat n) (Z.of_nat n * 2 + 1) h)
    end
  else Raise (ValueError unsupported_method_msg).

End Deconvolver.

(** Kernels to run [deconv] on concrete data: a flat taper, a unit probe
    and a frequency-domain branch that is never taken there. *)
Definition flat_taper (fs n t : nat) : Q := 1%Q.
Definition unit_probe (frp : list Q) : Q := 1%Q.
Definition no_fft (recording test_signal : list Q) : list Q := [].

(** ** [reorder_tracks] *)

(** [names.index(ch)], [None] standing for [ch not in names]. *)
Fixpoint index_of (ch : string) (names : list string) : option nat :=
  match names with
  | [] => None
  | n :: t =>
      if String.eqb n ch then Some 0
      else match index_of ch t with
           | Some k => Some (S k)
           | None => None
           end
  end.

Fixpoint map_result {A B : Type} (f : A -> result B) (l : list A)
  : result (list B) :=
  match l with
  | [] => Ok []
  | a :: t => b <- f a ;; bs <- map_result f t ;; Ok (b :: bs)
  end.

Definition track_names_of (speakers : list string) : list string :=
  flat_map (fun speaker =>
              [(speaker ++ "-left")%string; (speaker ++ "-right")%string])
           speakers.

Definition reorder_tracks (tracks : ndarray2) (speakers : list string)
  : result ndarray2 :=
  let track_names := track_names_of speakers in
  reordered <-
    map_result
      (fun ch =>
         match index_of ch track_names with
         | None => Ok (zeros (shape1 tracks))
         | Some k =>
             match nth_error (rows tracks) k with
             | Some row => Ok row
             | None => Raise IndexError
             end
         end)
      IR_ORDER ;;
  vstack reordered.

Definition recognized (speaker : string) : Prop := In speaker SPEAKER_NAMES.

(** The track that belongs in the canonical slot of [speaker] and [ear]
    (0 left, 1 right): the ear track of the speaker's first declaration, or
    silence when the speaker is not declared. *)
Definition canonical_slot (tracks : ndarray2) (speakers : list string)
  (speaker : string) (ear : nat) : list Q :=
  match index_of speaker speakers with
  | None => zeros (shape1 tracks)
  | Some k => nth (2 * k + ear) (rows tracks) []
  end.

(** [out] is the canonical 14-track layout of [tracks] declared in the
    order [speakers]: the two ear tracks of the speaker declared at position
    [k] (rows [2k] and [2k+1]) sit unchanged in the two slots of that speaker,
    and both slots of a speaker that is not declared are all-zero tracks of
    the common length. *)
Definition canonical_layout (tracks : ndarray2) (speakers : list string)
  (out : ndarray2) : Prop :=
  shape0 out = 14 /\
  shape1 out = shape1 tracks /\
  (forall k s, nth_error speakers k = Some s ->
     exists j, nth_error SPEAKER_NAMES j = Some s /\
       nth_error (rows out) (2 * j) = nth_error (rows tracks) (2 * k) /\
       nth_error (rows out) (2 * j + 1) = nth_error (rows tracks) (2 * k + 1)) /\
  (forall j s, nth_error SPEAKER_NAMES j = Some s -> ~ In s speakers ->
     nth_error (rows out) (2 * j) = Some (zeros (shape1 tracks)) /\
     nth_error (rows out) (2 * j + 1) = Some (zeros (shape1 tracks))).

(** ** The tail-cropping step of [main] *)

(** [max(tail_indices)] *)
Definition py_max (l : list Z) : result Z :=
  match l with
  | [] => Raise (ValueError "max() arg is an empty sequence")
  | x :: t => Ok (fold_left Z.max t x)
  end.

Section TailTruncator.

(** [impulse_response_decay(track, fs, window_size_ms=1)]: the smoothed
    RMS envelope in dB, one value per window. *)
Variable impulse_response_decay : list Q -> nat -> nat -> result (list Q).

(** The loop collecting one tail index per non-silent track; the window
    size handed over is [fs / 1000], a true division. *)
Fixpoint tail_indices_of (fs : nat) (cropped : list (list Q))
  : result (list Z) :=
  match cropped with
  | [] => Ok []
  | track :: rest =>
      if nonsilent track then
        rms <- impulse_response_decay track fs 1 ;;
        t <- tail_index rms (Qnat fs / 1000) ;;
        ts <- tail_indices_of fs rest ;;
        Ok (t :: ts)
      else tail_indices_of fs rest
  end.

(** [tail_ind = max(tail_indices)] *)
Definition tail_cutoff (fs : nat) (cropped : list (list Q)) : result Z :=
  ts <- tail_indices_of fs cropped ;; py_max ts.

(** The list [cropped] after [cropped[i] = cropped[i][:tail_ind]]. *)
Definition truncate_tails (fs : nat) (cropped : list (list Q))
  : result (list (list Q)) :=
  tail_ind <- tail_cutoff fs cropped ;;
  Ok (map (slice_to tail_ind) cropped).

(** ... followed by [impulse_responses = np.vstack(cropped)]. *)
Definition crop_tails (fs : nat) (cropped : list (list Q)) : result ndarray2 :=
  truncated <- truncate_tails fs cropped ;;
  vstack truncated.

End TailTruncator.

(** A decay analyzer fixed by the envelope it yields on tracks of eight
    samples and on all others, to run the step on concrete data. *)
Definition table_decay (long_env short_env : list Q) (track : list Q)
  (fs window_size_ms : nat) : result (list Q) :=
  if length track =? 8 then Ok long_env else Ok short_env.

(** Two envelopes for [table_decay]. *)
Definition long_envelope : list Q := [0; -10; -20; -30; -40; -50; -60; -55]%Q.
Definition short_envelope : list Q := [0; -60; -50; -50]%Q.

(** ** [zero_pad] *)

(** [np.zeros] refuses a negative padding length. *)
Definition zero_pad (data : ndarray2) (max_samples : Z) : result ndarray2 :=
  let padding_length := (max_samples - Z.of_nat (shape1 data))%Z in
  if (padding_length <? 0)%Z then
    Raise (ValueError "negative dimensions are not allowed")
  else
    Ok (mk_ndarray2 (shape1 data + Z.to_nat padding_length)
          (map (fun row => row ++ zeros (Z.to_nat padding_length)) (rows data))).

(** ** [to_float] and the sample conversion of [write_wav] *)

(** The dtypes [to_float] tells apart; every other one falls through. *)
Inductive dtype : Type := int32 | int16 | uint8 | other_dtype.

Definition to_float_sample (d : dtype) (v : Q) : Q :=
  match d with
  | int32 => v / inject_Z (2 ^ 31)
  | int16 => v / inject_Z (2 ^ 15)
  | uint8 => v / inject_Z (2 ^ 8) * 2 - 1
  | other_dtype => v
  end.

Definition to_float (d : dtype) (x : ndarray2) : ndarray2 :=
  mk_ndarray2 (shape1 x) (map (map (to_float_sample d)) (rows x)).

(** The integers a dtype of [to_float] holds. *)
Definition dtype_holds (d : dtype) (z : Z) : Prop :=
  match d with
  | int32 => (- 2 ^ 31 <= z < 2 ^ 31)%Z
  | int16 => (- 2 ^ 15 <= z < 2 ^ 15)%Z
  | uint8 => (0 <= z < 2 ^ 8)%Z
  | other_dtype => False
  end.

(** [.astype('int32')] on a float: truncation towards zero when the result
    fits 32 bits; numpy does not define the cast otherwise ([None]). *)
Definition astype_int32 (v : Q) : option Z :=
  let t := py_int v in
  if ((- 2 ^ 31 <=? t) && (t <? 2 ^ 31))%Z then Some t else None.

(** [np.multiply(x, 2 ** 31).astype('int32')], sample by sample. *)
Definition write_wav_sample (v : Q) : option Z :=
  astype_int32 (v * inject_Z (2 ^ 31)).

Fixpoint write_wav_track (track : list Q) : option (list Z) :=
  match track with
  | [] => Some []
  | v :: t =>
      match write_wav_sample v, write_wav_track t with
      | Some z, Some zs => Some (z :: zs)
      | _, _ => None
      end
  end.

(** ** The speaker list of [create_cli] *)

(** [str.upper] on ASCII text: there Python changes the letters a-z and
    nothing else.  A string is a sequence of bytes; the letters beyond ASCII
    that Python also maps are not represented, see [ascii_text]. *)
Definition upper_ascii (c : ascii) : ascii :=
  let n := nat_of_ascii c in
  if (97 <=? n) && (n <=? 122) then ascii_of_nat (n - 32) else c.

Fixpoint str_upper (s : string) : string :=
  match s with
  | EmptyString => EmptyString
  | String c s' => String (upper_ascii c) (str_upper s')
  end.

(** [s.split(sep)] for a one-character separator. *)
Fixpoint str_split (sep : ascii) (s : string) : list string :=
  match s with
  | EmptyString => [EmptyString]
  | String c s' =>
      if Ascii.eqb c sep then EmptyString :: str_split sep s'
      else match str_split sep s' with
           | [] => [String c EmptyString]
           | h :: t => String c h :: t
           end
  end.

(** [sep.join(labels)] *)
Fixpoint str_join (sep : ascii) (labels : list string) : string :=
  match labels with
  | [] => EmptyString
  | [l] => l
  | l :: t => (l ++ String sep (str_join sep t))%string
  end.

(** [args['speakers'].upper().split(',')] *)
Definition parse_speakers (arg : string) : list string :=
  str_split "," (str_upper arg).

(** A label without a comma. *)
Definition comma_free (label : string) : Prop :=
  ~ In ","%char (list_ascii_of_string label).

(** A label of ASCII characters only. *)
Definition ascii_text (label : string) : Prop :=
  Forall (fun c => nat_of_ascii c < 128) (list_ascii_of_string label).

(** ** The HeSuVi export of [main] *)

Definition hesuvi_order : list string :=
  ["FL-left"; "FL-right"; "SL-left"; "SL-right"; "BL-left"; "BL-right";
   "FC-left"; "FR-right"; "FR-left"; "SR-right"; "SR-left"; "BR-right";
   "BR-left"; "FC-right"].

(** [[IR_ORDER.index(ch) for ch in hesuvi_order]] *)
Definition hesuvi_indices : result (list nat) :=
  map_result
    (fun ch =>
       match index_of ch IR_ORDER with
       | Some i => Ok i
       | None => Raise (ValueError (ch ++ " is not in list")%string)
       end)
    hesuvi_order.

(** [a[indices, :]] *)
Definition take_rows (indices : list nat) (a : ndarray2) : result ndarray2 :=
  picked <-
    map_result
      (fun i =>
         match nth_error (rows a) i with
         | Some row => Ok row
         | None => Raise IndexError
         end)
      indices ;;
  Ok (mk_ndarray2 (shape1 a) picked).

Definition hesuvi (impulse_responses : ndarray2) : result ndarray2 :=
  indices <- hesuvi_indices ;;
  take_rows indices impulse_responses.

(** ** [impulse_response_decay] *)

(** [np.split(x, n)] of a sequence of [n * window_size] samples. *)
Fixpoint windows_of (x : list Q) (window_size n : nat) : list (list Q) :=
  match n with
  | O => []
  | S k => firstn window_size x :: windows_of (skipn window_size x) window_size k
  end.

Section DecayAnalyzer.

(** [window_level w] is the level [20 * log10(rms)] of one window, a zero
    RMS being replaced by 0.001; [savgol_filter x window_length polyorder]
    is scipy's filter for [window_length <= len(x)]. *)
Variable window_level : list Q -> Q.
Variable savgol_filter : list Q -> nat -> nat -> list Q.

(** The envelope returned for any plotting option.  A rate below 1 kHz
    gives a zero window size and stops at the division; with no full window
    [np.split] divides by zero; the filter of length 11 refuses fewer than
    11 windows. *)
Definition impulse_response_decay (impulse_response : list Q)
  (fs window_size_ms : nat) : result (list Q) :=
  let window_size := fs / 1000 * window_size_ms in
  if window_size =? 0 then Raise ZeroDivisionError
  else
    let n := length impulse_response / window_size in
    if n =? 0 then Raise ZeroDivisionError
    else
      let windows := windows_of (firstn (n * window_size) impulse_response)
                                window_size n in
      let smoothed := map window_level windows in
      if n <? 11 then
        Raise (ValueError "If mode is 'interp', window_length must be less than or equal to the size of x.")
      else Ok (Nat.iter 200 (fun s => savgol_filter s 11 1) smoothed).

End DecayAnalyzer.

(** A level and a smoothing pass to run the analyzer on concrete data: the
    negated sum of the magnitudes of a window, and the identity. *)
Definition magnitude_level (w : list Q) : Q :=
  (- fold_right (fun v s => Qabs v + s) 0 w)%Q.
Definition identity_filter (x : list Q) (window_length polyorder : nat)
  : list Q := x.

Definition late_channel : list Q := (repeat 1 29 ++ [20])%Q.

(** ** The loops of [main] *)

Definition pair_msg : string :=
  "Left and right ear recording pair must be non-zero for both or neither.".

Section MainLoops.

Variable exp_taper : nat -> nat -> nat -> Q.
Variable probe_magnitude : list Q -> Q.
Variable fft_division : list Q -> list Q -> list Q.
Variable find_peaks : list Q -> Q -> list nat.
Variable kaiser : nat -> Q -> list Q.
Variable decay : list Q -> nat -> nat -> result (list Q).

(** The deconvolution loop.  [test_signal] is the one row of a mono
    reference; it is zero-padded to the recording length and squeezed to
    that row inside [deconv]. *)
Definition estimate_responses (recording : ndarray2) (test_signal : list Q)
  (fs : nat) : result ndarray2 :=
  test_signal_zero_padded <-
    zero_pad (mk_ndarray2 (length test_signal) [test_signal])
             (Z.of_nat (shape1 recording)) ;;
  let reference := hd [] (rows test_signal_zero_padded) in
  impulse_responses <-
    map_result
      (fun track =>
         if nonsilent track then
           deconv exp_taper probe_magnitude fft_division
                  track reference "inverse_filter" (Some fs)
         else Ok (zeros (shape1 recording)))
      (rows recording) ;;
  vstack impulse_responses.

(** The head-cropping loop: [i] runs over the even row indices, [steps]
    bounds the number of iterations.  The two calls of the decay analyzer
    only draw plots, yet they run and may raise. *)
Fixpoint crop_heads (impulse_responses : list (list Q)) (fs : nat)
  (i steps : nat) : result (list (list Q)) :=
  match steps with
  | O => Ok []
  | S k =>
      if i <? length impulse_responses then
        match nth_error impulse_responses i,
              nth_error impulse_responses (i + 1),
              nth_error SPEAKER_NAMES (i / 2) with
        | Some left_ir, Some right_ir, Some speaker =>
            pair <-
              (if nonsilent left_ir && nonsilent right_ir then
                 _ <- decay left_ir fs 1 ;;
                 _ <- decay right_ir fs 1 ;;
                 crop_ir_head find_peaks kaiser left_ir right_ir speaker fs 1
               else if negb (nonsilent left_ir) && negb (nonsilent right_ir) then
                 Ok (left_ir, right_ir)
               else Raise (ValueError pair_msg)) ;;
            rest <- crop_heads impulse_responses fs (i + 2) k ;;
            Ok (fst pair :: snd pair :: rest)
        | _, _, _ => Raise IndexError
        end
      else Ok []
  end.

End MainLoops.

(** ** The opening of [main] *)

(** [plt.subplots(nrows, ncols)] with both above 1 returns the axes as an
    [nrows] by [ncols] array; an axes object is represented by its position. *)
Definition subplots (nrows ncols : nat) : list (list (nat * nat)) :=
  map (fun r => map (fun c => (r, c)) (seq 0 ncols)) (seq 0 nrows).

(** [ax[k]] *)
Definition axes_item (ax : list (list (nat * nat))) (k : nat)
  : result (list (nat * nat)) :=
  match nth_error ax k with
  | Some row => Ok row
  | None => Raise IndexError
  end.

(** One entry of the [plots] dictionary. *)
Definition plots_entry (ch_name : string)
  : result (string * list (list (nat * nat))) :=
  let ax := subplots 2 2 in
  spectrogram_ax <- axes_item ax 0 ;;
  ir_ax <- axes_item ax 1 ;;
  fr_ax <- axes_item ax 2 ;;
  decay_ax <- axes_item ax 3 ;;
  Ok (ch_name, [spectrogram_ax; ir_ax; fr_ax; decay_ax]).

Definition rate_msg : string :=
  "Sampling rates of recording and test signal do not match.".

(** [main] from the two files read ([fs_rec], [fs_ts] their rates) up to the
    plot dictionary.  [isdir] is the answer of [os.path.isdir(out_dir)] and
    [makedirs] the outcome of [os.makedirs(out_dir, exist_ok=True)], which
    raises an [OSError] when the directory cannot be created (a file of that
    name exists, no permission); [processing] stands for everything after
    the plot dictionary. *)
Definition main {A : Type} (fs_rec fs_ts : nat) (isdir : bool)
  (makedirs : result unit) (processing : result A) : result A :=
  if negb (fs_rec =? fs_ts) then Raise (ValueError rate_msg)
  else
    _ <- (if negb isdir then makedirs else Ok tt) ;;
    plots <- map_result plots_entry IR_ORDER ;;
    processing.

(** * Properties *)

(** ** Comparisons and integer conversion *)

Lemma Qltb_lt (a b : Q) : Qltb a b = true <-> (a < b)%Q.
Proof.
  unfold Qltb. rewrite negb_true_iff.
  split; intro H.
  - apply Qnot_le_lt. intro Hle. apply Qle_bool_iff in Hle. congruence.
  - destruct (Qle_bool b a) eqn:E; [ | reflexivity ].
    apply Qle_bool_iff in E. exfalso. exact (Qlt_not_le _ _ H E).
Qed.

Lemma Qltb_ge (a b : Q) : Qltb a b = false <-> (b <= a)%Q.
Proof.
  unfold Qltb. rewrite negb_false_iff. apply Qle_bool_iff.
Qed.


(** ** Track Splitter: the silence guard *)




Lemma py_int_whole (q : Q) (k : Z) : (q == inject_Z k)%Q -> py_int q = k.
Proof.
  intro Hk. unfold py_int. unfold Qeq in Hk. simpl in Hk.
  rewrite Z.mul_1_r in Hk. rewrite Hk. apply Z.quot_mul. discriminate.
Qed.

Lemma int_of_float_value (x : spec_float) (q : Q) :
  float_value x = Some q -> int_of_float x = Ok (py_int q).
Proof.
  destruct x as [ s | s | | s m e ]; cbn [float_value int_of_float];
    intro H; inversion H; subst; reflexivity.
Qed.


(** When the rounded product is the whole number [k], the guard passes and
    [k] is the silence length in samples. *)
Lemma silence_samples_whole (silence_length : spec_float) (fs : nat) (k : Z) :
  whole_product silence_length fs k ->
  silence_samples silence_length fs = Ok k.
Proof.
  intros (product & q & Hp & Hv & Hq). unfold silence_samples.
  rewrite Hp. cbn [bind]. rewrite (int_of_float_value _ _ Hv). cbn [bind].
  unfold float_ne_int. rewrite Hv.
  rewrite (py_int_whole _ _ Hq).
  replace (Qeq_bool q (inject_Z k)) with true
    by (symmetry; now apply Qeq_bool_iff).
  reflexivity.
Qed.




Lemma py_round_comp (q q' : Q) : (q == q')%Q -> py_round q = py_round q'.
Proof.
  intro E. unfold py_round. rewrite (Qfloor_comp _ _ E).
  assert (C : ((q - inject_Z (Qfloor q')) ?= (1 # 2))%Q
              = ((q' - inject_Z (Qfloor q')) ?= (1 # 2))%Q).
  { apply Qcompare_comp; [ now rewrite E | reflexivity ]. }
  now rewrite C.
Qed.

Lemma py_round_inject_Z (k : Z) : py_round (inject_Z k) = k.
Proof.
  unfold py_round. rewrite Qfloor_Z.
  assert (C : ((inject_Z k - inject_Z k) ?= (1 # 2))%Q = Lt).
  { apply Qlt_alt. setoid_replace (inject_Z k - inject_Z k)%Q with 0%Q by ring.
    reflexivity. }
  now rewrite C.
Qed.

Lemma ear_pair_rows_length columns i l :
  ear_pair_rows columns i = Ok l -> length l = 2 * length columns.
Proof.
  revert l. induction columns as [ | c cs IH ]; simpl; intros l H.
  - now inversion H.
  - destruct (nth_error (rows c) i); [ | discriminate ].
    destruct (nth_error (rows c) (i + 1)); [ | discriminate ].
    destruct (ear_pair_rows cs i) as [ more | ]; simpl in H; [ | discriminate ].
    inversion H; subst. simpl. rewrite (IH more eq_refl). lia.
Qed.

Lemma vstack_ok (tracks : list (list Q)) (a : ndarray2) :
  vstack tracks = Ok a -> rows a = tracks /\ wf_ndarray2 a.
Proof.
  unfold vstack. destruct tracks as [ | t rest ]; [ discriminate | ].
  destruct (forallb _ rest) eqn:E; [ | discriminate ].
  intro H. inversion H; subst; clear H. split; [ reflexivity | ].
  unfold wf_ndarray2. cbn [rows shape1]. constructor; [ reflexivity | ].
  apply Forall_forall. intros r Hr. apply Nat.eqb_eq.
  rewrite forallb_forall in E. now apply E.
Qed.

(** A two-track recording is split into two equal-length tracks per
    declared speaker: what [reorder_tracks] expects. *)
Lemma split_recording_stereo_rows
  (recording test_signal : ndarray2) (speakers : list string) (fs : nat)
  (silence_length : spec_float) (tracks : ndarray2) :
  shape0 recording = 2 ->
  split_recording recording test_signal speakers fs silence_length = Ok tracks ->
  shape0 tracks = 2 * length speakers /\ wf_ndarray2 tracks.
Proof.
  intros Hst. unfold split_recording.
  destruct (silence_samples silence_length fs) as [ silence | ];
    [ cbn [bind] | discriminate ].
  rewrite Hst. change (2 / 2 =? 0) with false. cbv iota.
  assert (Hn : py_round (Qnat (length speakers) / Qnat (2 / 2))
               = Z.of_nat (length speakers)).
  { rewrite <- (py_round_inject_Z (Z.of_nat (length speakers))).
    apply py_round_comp. unfold Qnat. change (inject_Z (Z.of_nat (2 / 2))) with 1%Q.
    field. }
  rewrite Hn, Nat2Z.id.
  assert (Hrows : shape0 (slice_cols_from silence recording) = 2).
  { unfold shape0, slice_cols_from. cbn [rows]. rewrite length_map. exact Hst. }
  rewrite Hrows.
  match goal with
  | |- context [split_rows ?cs 0 2 2] =>
      set (columns := cs);
      assert (Hc : length columns = length speakers)
        by (unfold columns; now rewrite length_map, length_seq)
  end.
  cbn [split_rows Nat.ltb Nat.leb Nat.add].
  destruct (ear_pair_rows columns 0) as [ here | ] eqn:Eh; cbn [bind];
    [ | discriminate ].
  intro H. apply vstack_ok in H. destruct H as [ Hr Hwf ].
  split; [ | exact Hwf ].
  unfold shape0. rewrite Hr, app_nil_r.
  rewrite (ear_pair_rows_length _ _ _ Eh). lia.
Qed.

(** ** Decay analyzer: [tail_index] *)

Lemma first_true_from_some (b : list bool) (i k : nat) :
  first_true_from i b = Some k ->
  i <= k /\ nth (k - i) b false = true /\
  forall j, j < k - i -> nth j b false = false.
Proof.
  revert i. induction b as [ | h t IH ]; intros i H; simpl in H.
  - discriminate.
  - destruct h.
    + inversion H; subst. rewrite Nat.sub_diag. simpl.
      repeat split; [ lia | intros j Hj; lia ].
    + apply IH in H. destruct H as (Hle & Hk & Hbefore).
      replace (k - i) with (S (k - S i)) by lia. simpl.
      repeat split; [ lia | exact Hk | ].
      intros [ | j ] Hj; [ reflexivity | apply Hbefore; lia ].
Qed.

Lemma first_true_from_none (b : list bool) (i : nat) :
  first_true_from i b = None -> forall j, nth j b false = false.
Proof.
  revert i. induction b as [ | h t IH ]; intros i H j; simpl in H.
  - now destruct j.
  - destruct h; [ discriminate | ].
    destruct j; [ reflexivity | simpl; eapply IH; exact H ].
Qed.

Lemma argmax_from_bound (x : list Q) (best : Q) (besti i : nat) :
  besti < i -> argmax_from best besti i x < i + length x.
Proof.
  revert best besti i. induction x as [ | v t IH ]; intros best besti i H; simpl.
  - lia.
  - destruct (Qltb best v).
    + specialize (IH v i (S i)). lia.
    + specialize (IH best besti (S i)). lia.
Qed.

Lemma argmax_bound (x : list Q) (p : nat) : argmax x = Some p -> p < length x.
Proof.
  destruct x as [ | v t ]; simpl; intro H; [ discriminate | ].
  inversion H; subst.
  pose proof (argmax_from_bound t v 0 1). lia.
Qed.

(** [np.argmax] returns an index holding the largest entry. *)
Lemma argmax_from_max (x pre : list Q) (best : Q) (besti : nat) :
  besti < length pre ->
  nth besti pre 0%Q = best ->
  (forall j, j < length pre -> (nth j pre 0 <= best)%Q) ->
  forall j, j < length (pre ++ x) ->
    (nth j (pre ++ x) 0 <= nth (argmax_from best besti (length pre) x) (pre ++ x) 0)%Q.
Proof.
  revert pre best besti. induction x as [ | v t IH ]; intros pre best besti Hi Hb Hmax j Hj; simpl.
  - rewrite app_nil_r in *. rewrite Hb. now apply Hmax.
  - assert (E : pre ++ v :: t = (pre ++ [v]) ++ t) by now rewrite <- app_assoc.
    assert (L : length (pre ++ [v]) = S (length pre))
      by (rewrite length_app; simpl; lia).
    destruct (Qltb best v) eqn:C.
    + apply Qltb_lt in C. rewrite E. rewrite <- L. apply IH.
      * lia.
      * rewrite app_nth2 by lia. now rewrite Nat.sub_diag.
      * intros k Hk. rewrite L in Hk.
        destruct (Nat.eq_dec k (length pre)) as [ -> | Hne ].
        -- rewrite app_nth2 by lia. rewrite Nat.sub_diag. simpl. apply Qle_refl.
        -- rewrite app_nth1 by lia. apply Qle_trans with best.
           ++ apply Hmax. lia.
           ++ now apply Qlt_le_weak.
      * now rewrite <- E.
    + apply Qltb_ge in C. rewrite E. rewrite <- L. apply IH.
      * lia.
      * rewrite app_nth1 by lia. exact Hb.
      * intros k Hk. rewrite L in Hk.
        destruct (Nat.eq_dec k (length pre)) as [ -> | Hne ].
        -- rewrite app_nth2 by lia. rewrite Nat.sub_diag. simpl. exact C.
        -- rewrite app_nth1 by lia. apply Hmax. lia.
      * now rewrite <- E.
Qed.

Lemma argmax_max (x : list Q) (p : nat) :
  argmax x = Some p -> forall j, j < length x -> (nth j x 0 <= nth p x 0)%Q.
Proof.
  destruct x as [ | v t ]; simpl; intro H; [ discriminate | ].
  inversion H; subst. intros j Hj.
  apply (argmax_from_max t [v] v 0); simpl; auto.
  intros k Hk. assert (k = 0) by lia. subst. apply Qle_refl.
Qed.

Lemma rise_loop_range (rms : list Q) (i steps : nat) (cur : option nat) (r : nat) :
  rise_loop rms i steps cur = Some r -> cur = Some r \/ (i <= r < i + steps).
Proof.
  revert i cur. induction steps as [ | k IH ]; intros i cur H; simpl in H.
  - now left.
  - destruct (Qltb _ _).
    + inversion H; subst. right. lia.
    + apply IH in H. destruct H as [ H | H ].
      * inversion H; subst. right. lia.
      * right. lia.
Qed.

(** What [tail_index] computes: the first window of the whole envelope whose
    level is below the noise floor plus 3 dB, scaled by the window size and
    truncated. *)
Lemma tail_index_first_below (rms : list Q) (w : Q) (t : Z) :
  tail_index rms w = Ok t ->
  exists nf k,
    noise_floor_of rms = Some nf /\
    k < length rms /\
    (nth k rms 0 < nf)%Q /\
    (forall j, j < k -> (nf <= nth j rms 0)%Q) /\
    t = py_int (Qnat k * w).
Proof.
  unfold tail_index.
  destruct (argmax rms) as [ p | ] eqn:Ep; [ | discriminate ].
  destruct (rise_loop rms (p + 1) (length rms - (p + 1)) None) as [ i | ] eqn:Er;
    [ | discriminate ].
  intro H. inversion H; subst; clear H.
  assert (Hnf : noise_floor_of rms = Some (nth i rms 0 + 3)%Q)
    by (unfold noise_floor_of; now rewrite Ep, Er).
  set (nf := (nth i rms 0 + 3)%Q) in *.
  set (b := map (fun v => Qltb v nf) rms).
  assert (Hi : i < length rms).
  { apply rise_loop_range in Er. destruct Er as [ Er | Er ]; [ discriminate | lia ]. }
  assert (Hnth : forall j, j < length rms ->
                     nth j b false = Qltb (nth j rms 0%Q) nf).
  { intros j Hj. unfold b.
    rewrite nth_indep with (d' := Qltb 0 nf) by now rewrite length_map.
    apply (map_nth (fun v => Qltb v nf)). }
  assert (Hlen : length b = length rms) by (unfold b; apply length_map).
  exists nf. unfold argmax_bool.
  destruct (first_true_from 0 b) as [ k | ] eqn:Ef.
  - apply first_true_from_some in Ef. destruct Ef as (_ & Hk & Hbefore).
    rewrite Nat.sub_0_r in Hk, Hbefore.
    assert (Hkl : k < length rms).
    { destruct (Nat.lt_ge_cases k (length b)) as [ Hlt | Hge ]; [ lia | ].
      rewrite nth_overflow in Hk by exact Hge. discriminate. }
    exists k. repeat split; try assumption.
    + apply Qltb_lt. now rewrite <- Hnth.
    + intros j Hj. apply Qltb_ge. rewrite <- Hnth by lia. now apply Hbefore.
  - exfalso. pose proof (first_true_from_none _ _ Ef i) as Hn.
    rewrite Hnth in Hn by exact Hi. apply Qltb_ge in Hn.
    unfold nf in Hn. revert Hn. apply Qlt_not_le.
    rewrite <- (Qplus_0_r (nth i rms 0%Q)) at 1.
    apply Qplus_lt_r. reflexivity.
Qed.

(** When no window before the peak lies below the noise floor plus 3 dB,
    [tail_index] returns the window the specification describes. *)
Lemma tail_index_agrees_after_peak (rms : list Q) (w : Q) (p : nat) (nf : Q) :
  argmax rms = Some p ->
  noise_floor_of rms = Some nf ->
  (forall j, j < p -> (nf <= nth j rms 0)%Q) ->
  exists k,
    spec_tail_window rms = Some k /\ p <= k /\
    tail_index rms w = Ok (py_int (Qnat k * w)).
Proof.
  intros Hp Hnf Hpre.
  assert (Hnf' := Hnf).
  unfold noise_floor_of in Hnf'. rewrite Hp in Hnf'.
  destruct (rise_loop rms (p + 1) (length rms - (p + 1)) None) as [ i | ] eqn:Er;
    [ | discriminate ].
  inversion Hnf'; subst nf; clear Hnf'.
  set (nf := (nth i rms 0 + 3)%Q) in *.
  destruct (tail_index rms w) as [ t | e ] eqn:Et.
  2:{ unfold tail_index in Et. rewrite Hp, Er in Et. discriminate. }
  destruct (tail_index_first_below _ _ _ Et) as (nf' & k & Hnf2 & Hk & Hlt & Hbefore & ->).
  rewrite Hnf in Hnf2. inversion Hnf2; subst nf'; clear Hnf2.
  assert (Hpk : p <= k).
  { destruct (Nat.lt_ge_cases k p) as [ Hlt' | ]; [ | assumption ].
    exfalso. exact (Qlt_not_le _ _ Hlt (Hpre k Hlt')). }
  exists k. repeat split; try assumption.
  unfold spec_tail_window. rewrite Hp, Hnf.
  pose proof (argmax_bound _ _ Hp) as Hpl.
  assert (Hsk : forall j, nth j (map (fun v => Qltb v nf) (skipn p rms)) false
                          = if j <? length rms - p then Qltb (nth (p + j) rms 0%Q) nf
                            else false).
  { intro j. destruct (j <? length rms - p) eqn:Hj.
    - apply Nat.ltb_lt in Hj.
      rewrite nth_indep with (d' := Qltb 0 nf)
        by (rewrite length_map, length_skipn; lia).
      rewrite (map_nth (fun v => Qltb v nf)). now rewrite nth_skipn.
    - apply Nat.ltb_ge in Hj. apply nth_overflow.
      rewrite length_map, length_skipn. lia. }
  destruct (first_true_from p (map (fun v => Qltb v nf) (skipn p rms)))
    as [ k' | ] eqn:Ef.
  - apply first_true_from_some in Ef. destruct Ef as (Hle & Hk' & Hb').
    rewrite Hsk in Hk'.
    destruct (k' - p <? length rms - p) eqn:Hr; [ | discriminate ].
    apply Nat.ltb_lt in Hr. replace (p + (k' - p)) with k' in Hk' by lia.
    apply Qltb_lt in Hk'.
    f_equal. destruct (Nat.lt_trichotomy k k') as [ Hlt' | [ Heq | Hgt ] ].
    + exfalso. specialize (Hb' (k - p) ltac:(lia)). rewrite Hsk in Hb'.
      destruct (k - p <? length rms - p) eqn:Hr'.
      * replace (p + (k - p)) with k in Hb' by lia.
        apply Qltb_ge in Hb'. exact (Qlt_not_le _ _ Hlt Hb').
      * apply Nat.ltb_ge in Hr'. lia.
    + now symmetry.
    + exfalso. exact (Qlt_not_le _ _ Hk' (Hbefore k' Hgt)).
  - exfalso. pose proof (first_true_from_none _ _ Ef (k - p)) as Hn.
    rewrite Hsk in Hn.
    destruct (k - p <? length rms - p) eqn:Hr'.
    + replace (p + (k - p)) with k in Hn by lia.
      apply Qltb_ge in Hn. exact (Qlt_not_le _ _ Hlt Hn).
    + apply Nat.ltb_ge in Hr'. lia.
Qed.

(** C1. On the envelope -100, 0, -50, -60, -55 dB the peak-energy window is
    window 1 and the noise floor plus 3 dB is -52 dB; the first window at or
    after the peak below that level is window 3, yet [tail_index] returns
    window 0, which precedes the peak. *)
Theorem tail_index_precedes_peak :
  let rms := [-100; 0; -50; -60; -55]%Q in
  argmax rms = Some 1 /\
  noise_floor_of rms = Some (-52 # 1)%Q /\
  spec_tail_window rms = Some 3 /\
  tail_index rms 48 = Ok 0%Z.
Proof.
  vm_compute. repeat split; reflexivity.
Qed.

(** When the largest level sits in the last window the scan after the peak
    is empty and its loop variable is never bound. *)
Lemma tail_index_peak_in_last_window :
  tail_index [-60; -30; 0]%Q 48 = Raise UnboundLocalError.
Proof. reflexivity. Qed.

(** ** Normalizer *)

(** C4. On the one-track signal 1/2, -1 the sample of largest magnitude is
    the second one, yet [normalize] scales by the largest signed sample 1/2:
    the first sample lands on the target level and the second on twice the
    target level. *)
Theorem normalize_negative_peak (gain : Q) :
  (0 < gain)%Q ->
  (peak_magnitude (mk_ndarray2 2 [[1 # 2; -1]%Q]) == Qabs (-1))%Q /\
  exists a b,
    normalize (mk_ndarray2 2 [[1 # 2; -1]%Q]) gain
      = Ok (mk_ndarray2 2 [[a; b]]) /\
    (a == gain)%Q /\ (b == - (2 * gain))%Q /\ (gain < Qabs b)%Q.
Proof.
  intro Hg. split; [ reflexivity | ].
  exists ((1 # 2) / Qabs (1 # 2) * gain)%Q, (-1 / Qabs (1 # 2) * gain)%Q.
  split; [ reflexivity | ].
  change (Qabs (1 # 2)) with (1 # 2)%Q.
  assert (Ha : ((1 # 2) / (1 # 2) * gain == gain)%Q) by (field; discriminate).
  assert (Hb : (-1 / (1 # 2) * gain == - (2 * gain))%Q) by (field; discriminate).
  repeat split; try assumption.
  rewrite Hb, Qabs_opp, Qabs_pos.
  - rewrite <- (Qplus_0_r gain) at 1.
    setoid_replace (2 * gain)%Q with (gain + gain)%Q by ring.
    now apply Qplus_lt_r.
  - apply Qmult_le_0_compat; [ discriminate | now apply Qlt_le_weak ].
Qed.

Lemma normalize_negative_peak_witness :
  (peak_magnitude (mk_ndarray2 2 [[1 # 2; -1]%Q]) == Qabs (-1))%Q /\
  exists a b,
    normalize (mk_ndarray2 2 [[1 # 2; -1]%Q]) (989 # 1000)
      = Ok (mk_ndarray2 2 [[a; b]]) /\
    (a == 989 # 1000)%Q /\ (b == - (2 * (989 # 1000)))%Q /\
    (989 # 1000 < Qabs b)%Q.
Proof.
  apply (normalize_negative_peak (989 # 1000)). reflexivity.
Defined.

(** ** Reorderer *)

Lemma list_ascii_of_string_app (s t : string) :
  list_ascii_of_string (s ++ t)
  = list_ascii_of_string s ++ list_ascii_of_string t.
Proof.
  induction s as [ | c s IH ]; simpl; [ reflexivity | now rewrite IH ].
Qed.

Lemma list_ascii_of_string_inj (s t : string) :
  list_ascii_of_string s = list_ascii_of_string t -> s = t.
Proof.
  intro H.
  rewrite <- (string_of_list_ascii_of_string s),
          <- (string_of_list_ascii_of_string t).
  now rewrite H.
Qed.

Lemma append_suffix_inj (s t suffix : string) :
  (s ++ suffix = t ++ suffix)%string -> s = t.
Proof.
  intro H. apply list_ascii_of_string_inj.
  apply (f_equal list_ascii_of_string) in H.
  rewrite !list_ascii_of_string_app in H.
  now apply app_inv_tail in H.
Qed.

Lemma left_right_distinct (s t : string) :
  (s ++ "-left")%string <> (t ++ "-right")%string.
Proof.
  intro H. apply (f_equal list_ascii_of_string) in H.
  rewrite !list_ascii_of_string_app in H.
  apply (f_equal (@rev ascii)) in H.
  rewrite !rev_app_distr in H. simpl in H. discriminate H.
Qed.

Lemma index_of_some (ch : string) (names : list string) (k : nat) :
  index_of ch names = Some k ->
  nth_error names k = Some ch /\ forall j, j < k -> nth_error names j <> Some ch.
Proof.
  revert k. induction names as [ | n t IH ]; intros k H; simpl in H.
  - discriminate.
  - destruct (String.eqb_spec n ch) as [ -> | Hne ].
    + inversion H; subst. split; [ reflexivity | intros j Hj; lia ].
    + destruct (index_of ch t) as [ k' | ]; [ | discriminate ].
      inversion H; subst. destruct (IH k' eq_refl) as [ Hk Hb ].
      split; [ exact Hk | ].
      intros [ | j ] Hj; simpl.
      * intro E. inversion E. contradiction.
      * apply Hb. lia.
Qed.

Lemma index_of_none (ch : string) (names : list string) :
  index_of ch names = None <-> ~ In ch names.
Proof.
  induction names as [ | n t IH ]; simpl.
  - tauto.
  - destruct (String.eqb_spec n ch) as [ -> | Hne ].
    + split; [ discriminate | tauto ].
    + destruct (index_of ch t).
      * split; [ discriminate | ].
        intro H. exfalso. apply H. right. apply Decidable.not_not.
        -- destruct (in_dec string_dec ch t); [ now left | now right ].
        -- intro Hn. now apply IH in Hn.
      * split; [ | reflexivity ].
        intros _ [ H | H ]; [ contradiction | ]. now apply IH.
Qed.

Lemma index_of_nodup (ch : string) (names : list string) (k : nat) :
  NoDup names -> nth_error names k = Some ch -> index_of ch names = Some k.
Proof.
  intros Hnd Hk.
  destruct (index_of ch names) as [ k' | ] eqn:E.
  - apply index_of_some in E. destruct E as [ Hk' _ ].
    f_equal. rewrite NoDup_nth_error in Hnd.
    apply Hnd; [ | congruence ].
    apply nth_error_Some. congruence.
  - apply index_of_none in E. exfalso. apply E.
    eapply nth_error_In. exact Hk.
Qed.

Lemma index_of_left (speaker : string) (speakers : list string) :
  index_of (speaker ++ "-left") (track_names_of speakers)
  = option_map (fun k => 2 * k) (index_of speaker speakers).
Proof.
  induction speakers as [ | sp rest IH ]; [ reflexivity | ].
  change (track_names_of (sp :: rest))
    with ((sp ++ "-left")%string :: (sp ++ "-right")%string :: track_names_of rest).
  cbn [index_of].
  destruct (String.eqb_spec sp speaker) as [ -> | Hne ].
  - now rewrite String.eqb_refl.
  - destruct (String.eqb_spec (sp ++ "-left") (speaker ++ "-left")) as [ E | _ ].
    { apply append_suffix_inj in E. contradiction. }
    destruct (String.eqb_spec (sp ++ "-right") (speaker ++ "-left")) as [ E | _ ].
    { symmetry in E. now apply left_right_distinct in E. }
    rewrite IH. destruct (index_of speaker rest); simpl; [ | reflexivity ].
    f_equal. lia.
Qed.

Lemma index_of_right (speaker : string) (speakers : list string) :
  index_of (speaker ++ "-right") (track_names_of speakers)
  = option_map (fun k => 2 * k + 1) (index_of speaker speakers).
Proof.
  induction speakers as [ | sp rest IH ]; [ reflexivity | ].
  change (track_names_of (sp :: rest))
    with ((sp ++ "-left")%string :: (sp ++ "-right")%string :: track_names_of rest).
  cbn [index_of].
  destruct (String.eqb_spec (sp ++ "-left") (speaker ++ "-right")) as [ E | _ ].
  { now apply left_right_distinct in E. }
  destruct (String.eqb_spec sp speaker) as [ -> | Hne ].
  - now rewrite String.eqb_refl.
  - destruct (String.eqb_spec (sp ++ "-right") (speaker ++ "-right")) as [ E | _ ].
    { apply append_suffix_inj in E. contradiction. }
    rewrite IH. destruct (index_of speaker rest); simpl; [ | reflexivity ].
    f_equal. lia.
Qed.

Lemma index_of_lt (ch : string) (names : list string) (k : nat) :
  index_of ch names = Some k -> k < length names.
Proof.
  intro H. apply index_of_some in H. destruct H as [ H _ ].
  apply nth_error_Some. congruence.
Qed.

Section Reorder.

Variable tracks : ndarray2.
Variable speakers : list string.
Hypothesis two_per_speaker : 2 * length speakers <= shape0 tracks.
Hypothesis tracks_wf : wf_ndarray2 tracks.

Let lookup (ch : string) : result (list Q) :=
  match index_of ch (track_names_of speakers) with
  | None => Ok (zeros (shape1 tracks))
  | Some k =>
      match nth_error (rows tracks) k with
      | Some row => Ok row
      | None => Raise IndexError
      end
  end.

Lemma lookup_slot (speaker : string) (ear : nat) (suffix : string) :
  (ear = 0 /\ suffix = "-left") \/ (ear = 1 /\ suffix = "-right") ->
  lookup (speaker ++ suffix) = Ok (canonical_slot tracks speakers speaker ear).
Proof.
  intros Hs. unfold lookup, canonical_slot.
  assert (E : index_of (speaker ++ suffix) (track_names_of speakers)
              = option_map (fun k => 2 * k + ear) (index_of speaker speakers)).
  { destruct Hs as [ [ -> -> ] | [ -> -> ] ].
    - rewrite index_of_left. destruct (index_of speaker speakers); simpl;
        [ f_equal; lia | reflexivity ].
    - apply index_of_right. }
  rewrite E. destruct (index_of speaker speakers) as [ k | ] eqn:Ek;
    cbn [option_map]; [ | reflexivity ].
  apply index_of_lt in Ek.
  assert (Hlt : 2 * k + ear < length (rows tracks)).
  { unfold shape0 in two_per_speaker. destruct Hs as [ [ -> _ ] | [ -> _ ] ]; lia. }
  destruct (nth_error (rows tracks) (2 * k + ear)) as [ row | ] eqn:En.
  - f_equal. symmetry. now apply nth_error_nth.
  - apply nth_error_None in En. lia.
Qed.

Lemma canonical_slot_length (speaker : string) (ear : nat) :
  ear < 2 -> length (canonical_slot tracks speakers speaker ear) = shape1 tracks.
Proof.
  intro He. unfold canonical_slot.
  destruct (index_of speaker speakers) as [ k | ] eqn:Ek.
  - apply index_of_lt in Ek.
    unfold wf_ndarray2 in tracks_wf. rewrite Forall_forall in tracks_wf.
    apply tracks_wf. apply nth_In. unfold shape0 in two_per_speaker. lia.
  - apply repeat_length.
Qed.

Lemma map_result_slots (names : list string) :
  map_result lookup
    (flat_map (fun ch => [(ch ++ "-left")%string; (ch ++ "-right")%string]) names)
  = Ok (flat_map (fun s => [canonical_slot tracks speakers s 0;
                            canonical_slot tracks speakers s 1]) names).
Proof.
  induction names as [ | n t IH ]; [ reflexivity | ].
  cbn [flat_map app map_result].
  rewrite (lookup_slot n 0 "-left") by (left; split; reflexivity).
  cbn [bind].
  rewrite (lookup_slot n 1 "-right") by (right; split; reflexivity).
  cbn [bind]. rewrite IH. reflexivity.
Qed.

(** The output of [reorder_tracks], slot by slot. *)
Lemma reorder_tracks_slots :
  reorder_tracks tracks speakers
  = Ok (mk_ndarray2 (shape1 tracks)
          (flat_map (fun s => [canonical_slot tracks speakers s 0;
                               canonical_slot tracks speakers s 1])
                    SPEAKER_NAMES)).
Proof.
  unfold reorder_tracks.
  change (map_result _ IR_ORDER)
    with (map_result lookup
            (flat_map (fun ch => [(ch ++ "-left")%string; (ch ++ "-right")%string])
                      SPEAKER_NAMES)).
  rewrite map_result_slots. cbn [bind].
  unfold SPEAKER_NAMES. cbn [flat_map app]. unfold vstack.
  cbn [forallb].
  rewrite !canonical_slot_length by lia.
  rewrite !Nat.eqb_refl. cbn [andb]. reflexivity.
Qed.

End Reorder.

Lemma IR_ORDER_canonical :
  IR_ORDER = ["FL-left"; "FL-right"; "FR-left"; "FR-right"; "FC-left";
              "FC-right"; "BL-left"; "BL-right"; "BR-left"; "BR-right";
              "SL-left"; "SL-right"; "SR-left"; "SR-right"].
Proof. reflexivity. Qed.

Lemma nth_error_pairs {A B : Type} (f g : A -> B) (l : list A) (j : nat) :
  nth_error (flat_map (fun a => [f a; g a]) l) (2 * j)
    = option_map f (nth_error l j) /\
  nth_error (flat_map (fun a => [f a; g a]) l) (2 * j + 1)
    = option_map g (nth_error l j).
Proof.
  revert j. induction l as [ | a t IH ]; intros j.
  - rewrite !nth_error_nil. now destruct j.
  - destruct j as [ | j ]; [ split; reflexivity | ].
    replace (2 * S j) with (S (S (2 * j))) by lia.
    replace (S (S (2 * j)) + 1) with (S (S (2 * j + 1))) by lia.
    exact (IH j).
Qed.

(** C6. For a declared order without repetition made of recognized labels,
    with two well-formed tracks per declared speaker, [reorder_tracks]
    returns exactly 14 tracks in the canonical order: every declared
    speaker's left and right tracks sit unchanged in that speaker's two
    canonical slots, and the slots of every absent speaker hold all-zero
    tracks of the same length. *)
Theorem reorder_tracks_canonical (tracks : ndarray2) (speakers : list string) :
  NoDup speakers ->
  Forall recognized speakers ->
  shape0 tracks = 2 * length speakers ->
  wf_ndarray2 tracks ->
  exists out,
    reorder_tracks tracks speakers = Ok out /\
    canonical_layout tracks speakers out.
Proof.
  intros Hnd Hrec Hrows Hwf.
  eexists. split.
  { apply reorder_tracks_slots; [ lia | exact Hwf ]. }
  unfold canonical_layout, shape0. cbn [rows shape1].
  split; [ reflexivity | ]. split; [ reflexivity | ]. split.
  - intros k s Hk.
    assert (Hin : In s SPEAKER_NAMES).
    { rewrite Forall_forall in Hrec. apply Hrec. eapply nth_error_In. exact Hk. }
    apply In_nth_error in Hin. destruct Hin as [ j Hj ].
    exists j. split; [ exact Hj | ].
    destruct (nth_error_pairs (fun s => canonical_slot tracks speakers s 0)
                (fun s => canonical_slot tracks speakers s 1) SPEAKER_NAMES j)
      as [ El Er ].
    rewrite El, Er, Hj. cbn [option_map]. unfold canonical_slot.
    rewrite (index_of_nodup _ _ _ Hnd Hk).
    assert (Hlt : k < length speakers) by (apply nth_error_Some; congruence).
    unfold shape0 in Hrows.
    rewrite Nat.add_0_r.
    split; symmetry; apply nth_error_nth'; lia.
  - intros j s Hj Hnot.
    destruct (nth_error_pairs (fun s => canonical_slot tracks speakers s 0)
                (fun s => canonical_slot tracks speakers s 1) SPEAKER_NAMES j)
      as [ El Er ].
    rewrite El, Er, Hj. cbn [option_map]. unfold canonical_slot.
    apply index_of_none in Hnot. rewrite Hnot. split; reflexivity.
Qed.

Lemma reorder_tracks_canonical_witness :
  exists out,
    reorder_tracks (mk_ndarray2 2 [[1; 2]; [3; 4]; [5; 6]; [7; 8]]%Q) ["FR"; "FL"]
      = Ok out /\
    canonical_layout (mk_ndarray2 2 [[1; 2]; [3; 4]; [5; 6]; [7; 8]]%Q)
      ["FR"; "FL"] out.
Proof.
  apply reorder_tracks_canonical.
  - repeat constructor; simpl; intuition discriminate.
  - unfold recognized.
    repeat (apply Forall_cons; [ simpl; auto 10 | ]). apply Forall_nil.
  - reflexivity.
  - repeat constructor.
Defined.

(** An unrecognized label names no slot of the canonical order. *)
Lemma unrecognized_has_no_slot (speaker : string) :
  ~ recognized speaker ->
  ~ In (speaker ++ "-left")%string IR_ORDER /\
  ~ In (speaker ++ "-right")%string IR_ORDER.
Proof.
  intro Hn. unfold IR_ORDER. rewrite !in_flat_map.
  split; intros (s & Hs & Hin); apply Hn; simpl in Hin;
    destruct Hin as [ E | [ E | [] ] ].
  - apply append_suffix_inj in E. now subst.
  - symmetry in E. now apply left_right_distinct in E.
  - now apply left_right_distinct in E.
  - apply append_suffix_inj in E. now subst.
Qed.

(** C5 (as the code has it).  A declared order is never rejected for its
    labels: whatever the labels are, given two well-formed tracks per
    declared label [reorder_tracks] returns 14 tracks, each of them either
    all-zero or an ear track of a declared speaker that is recognized; the
    tracks of any other label are left out. *)
Theorem reorder_tracks_accepts_any_label (tracks : ndarray2) (speakers : list string) :
  2 * length speakers <= shape0 tracks ->
  wf_ndarray2 tracks ->
  exists out,
    reorder_tracks tracks speakers = Ok out /\
    shape0 out = 14 /\
    forall row, In row (rows out) ->
      row = zeros (shape1 tracks) \/
      exists k s ear,
        nth_error speakers k = Some s /\ recognized s /\ ear < 2 /\
        nth_error (rows tracks) (2 * k + ear) = Some row.
Proof.
  intros Hrows Hwf.
  eexists. split.
  { apply reorder_tracks_slots; assumption. }
  unfold shape0. cbn [rows shape1]. split; [ reflexivity | ].
  intros row Hin. apply in_flat_map in Hin. destruct Hin as (s & Hs & Hin).
  assert (Hslot : exists ear, ear < 2 /\ row = canonical_slot tracks speakers s ear).
  { destruct Hin as [ E | [ E | [] ] ]; [ exists 0 | exists 1 ]; split; auto. }
  destruct Hslot as (ear & Hear & ->). unfold canonical_slot.
  destruct (index_of s speakers) as [ k | ] eqn:Ek; [ right | now left ].
  exists k, s, ear.
  pose proof (index_of_lt _ _ _ Ek) as Hk.
  apply index_of_some in Ek. destruct Ek as [ Ek _ ].
  repeat split; try assumption.
  apply nth_error_nth'. unfold shape0 in Hrows. lia.
Qed.

Lemma reorder_tracks_accepts_any_label_witness :
  exists out,
    reorder_tracks (mk_ndarray2 1 [[1]; [2]; [3]; [4]]%Q) ["XX"; "FL"] = Ok out /\
    shape0 out = 14 /\
    forall row, In row (rows out) ->
      row = zeros 1 \/
      exists k s ear,
        nth_error ["XX"; "FL"] k = Some s /\ recognized s /\ ear < 2 /\
        nth_error [[1]; [2]; [3]; [4]]%Q (2 * k + ear) = Some row.
Proof.
  apply (reorder_tracks_accepts_any_label
           (mk_ndarray2 1 [[1]; [2]; [3]; [4]]%Q) ["XX"; "FL"]).
  - unfold shape0. simpl. lia.
  - repeat constructor.
Defined.

(** The label XX is outside the recognized set, and declaring it raises
    nothing: the step returns fourteen silent tracks. *)
Lemma reorder_tracks_unrecognized_label_returns :
  ~ recognized "XX" /\
  reorder_tracks (mk_ndarray2 1 [[1]; [2]]%Q) ["XX"]
  = Ok (mk_ndarray2 1 (repeat [0%Q] 14)).
Proof.
  split.
  - unfold recognized. simpl. intuition discriminate.
  - reflexivity.
Qed.

(** ** Head Aligner *)

Lemma adjust_index_nonneg (len : nat) (i : Z) :
  (0 <= i)%Z -> adjust_index len i = Nat.min len (Z.to_nat i).
Proof.
  intro H. unfold adjust_index.
  destruct (Z.ltb_spec i 0); [ lia | ].
  destruct (Z.ltb_spec i 0); [ lia | ].
  destruct (Z.leb_spec (Z.of_nat len) i); lia.
Qed.

Lemma adjust_index_neg (len : nat) (i : Z) :
  (i < 0)%Z -> adjust_index len i = len - Z.to_nat (- i).
Proof.
  intro H. unfold adjust_index.
  destruct (Z.ltb_spec i 0); [ | lia ].
  destruct (Z.ltb_spec (i + Z.of_nat len) 0); [ lia | ].
  destruct (Z.leb_spec (Z.of_nat len) (i + Z.of_nat len)); lia.
Qed.

(** A slice from a non-negative start drops that many samples. *)
Lemma slice_from_nonneg {A : Type} (start : Z) (x : list A) :
  (0 <= start)%Z -> slice_from start x = skipn (Z.to_nat start) x.
Proof.
  intro H. unfold slice_from. rewrite adjust_index_nonneg by exact H.
  destruct (Nat.le_ge_cases (length x) (Z.to_nat start)) as [ Hle | Hge ].
  - rewrite Nat.min_l by exact Hle. rewrite skipn_all. symmetry.
    now apply skipn_all2.
  - now rewrite Nat.min_r by exact Hge.
Qed.

(** A slice from a negative start wraps: it keeps the last [-start]
    samples, or everything when there are fewer. *)
Lemma slice_from_neg {A : Type} (start : Z) (x : list A) :
  (start < 0)%Z -> slice_from start x = skipn (length x - Z.to_nat (- start)) x.
Proof.
  intro H. unfold slice_from. now rewrite adjust_index_neg by exact H.
Qed.


Lemma imul_head_fits (head : nat) (window x : list Q) :
  length window = head -> head <= length x ->
  exists y, imul_head head window x = Ok y /\
            length y = length x /\
            forall j, head <= j -> nth_error y j = nth_error x j.
Proof.
  intros Hw Hx. unfold imul_head.
  assert (Hv : length (firstn head x) = head) by (rewrite length_firstn; lia).
  rewrite Hv, Hw, Nat.eqb_refl.
  eexists. split; [ reflexivity | ].
  assert (Hm : length (map (fun p : Q * Q => (fst p * snd p)%Q)
                         (combine (firstn head x) window)) = head).
  { rewrite length_map, length_combine, Hv, Hw. lia. }
  split.
  - rewrite length_app, Hm, length_skipn. lia.
  - intros j Hj. rewrite nth_error_app2 by lia. rewrite Hm.
    rewrite nth_error_skipn. f_equal. lia.
Qed.

Lemma imul_head_short (head : nat) (window x : list Q) :
  length window = head -> length x < head -> 2 <= head ->
  imul_head head window x
  = Raise (ValueError "operands could not be broadcast together").
Proof.
  intros Hw Hx Hh. unfold imul_head.
  assert (Hv : length (firstn head x) = length x) by (rewrite length_firstn; lia).
  rewrite Hv, Hw.
  destruct (Nat.eqb_spec head (length x)); [ lia | ].
  destruct (Nat.eqb_spec head 1); [ lia | reflexivity ].
Qed.

Lemma py_round_nonneg (q : Q) : (0 <= q)%Q -> (0 <= py_round q)%Z.
Proof.
  intro H. apply Qfloor_resp_le in H. change (Qfloor 0) with 0%Z in H.
  unfold py_round.
  destruct (Qcompare _ _); [ destruct (Z.even _) | | ]; lia.
Qed.

Lemma recognized_channel_delay (speaker : string) (fs head_ms : nat) (delay : Z) :
  channel_delay speaker fs head_ms = Ok delay -> recognized speaker.
Proof.
  unfold channel_delay, SPEAKER_DELAYS, recognized, SPEAKER_NAMES.
  repeat match goal with
         | |- context [String.eqb speaker ?n] =>
             destruct (String.eqb_spec speaker n) as [ -> | ? ];
             [ intros _; simpl; auto 10 | ]
         end.
  discriminate.
Qed.

(** The channel delay is the head room plus a non-negative table part. *)
Lemma channel_delay_head_room (speaker : string) (fs head_ms : nat) (delay : Z) :
  channel_delay speaker fs head_ms = Ok delay ->
  (Z.of_nat (head_room fs head_ms) <= delay)%Z.
Proof.
  unfold channel_delay.
  destruct (SPEAKER_DELAYS speaker) as [ d | ] eqn:Ed; [ | discriminate ].
  intro H. inversion H; subst; clear H.
  assert (Hd : (0 <= d)%Q).
  { unfold SPEAKER_DELAYS in Ed.
    repeat match type of Ed with
           | (if ?b then _ else _) = _ =>
               destruct b; [ inversion Ed; subst; discriminate | ]
           end.
    discriminate. }
  assert (Hq : (0 <= d / 1000 * Qnat fs)%Q).
  { apply Qmult_le_0_compat.
    - apply Qle_shift_div_l; [ reflexivity | ]. now rewrite Qmult_0_l.
    - unfold Qnat, Qle. simpl. lia. }
  apply py_round_nonneg in Hq. lia.
Qed.

Lemma recognized_cases (speaker : string) :
  recognized speaker ->
  speaker = "FL" \/ speaker = "FR" \/ speaker = "FC" \/ speaker = "BL" \/
  speaker = "BR" \/ speaker = "SL" \/ speaker = "SR".
Proof.
  unfold recognized, SPEAKER_NAMES. simpl. intuition auto.
Qed.

Ltac each_speaker H :=
  apply recognized_cases in H;
  destruct H as [ -> | [ -> | [ -> | [ -> | [ -> | [ -> | -> ] ] ] ] ] ].

Ltac eval_side_test :=
  match goal with
  | |- context [second_char_is ?s ?c] =>
      let t := eval vm_compute in (second_char_is s c) in
      change (second_char_is s c) with t
  end.

(** The fade-in window has as many samples as the head room. *)
Lemma window_length (kaiser : nat -> Q -> list Q) (head : nat) :
  (forall M beta, length (kaiser M beta) = M) ->
  length (firstn head (kaiser (head * 2) 16%Q)) = head.
Proof.
  intro Hk. rewrite length_firstn, Hk. lia.
Qed.

Section HeadAlignerFacts.

Variable find_peaks : list Q -> Q -> list nat.
Variable kaiser : nat -> Q -> list Q.

Variables left right : list Q.
Variable speaker : string.
Variables fs head_ms : nat.
Variables peak_left peak_right : nat.
Variable delay : Z.
Hypothesis left_peak : first_peak find_peaks left = Ok peak_left.
Hypothesis right_peak : first_peak find_peaks right = Ok peak_right.
Hypothesis delay_found : channel_delay speaker fs head_ms = Ok delay.

Let head := head_room fs head_ms.
Let window := firstn head (kaiser (head * 2) 16).
Let start := (Z.of_nat (Nat.min peak_left peak_right) - delay)%Z.

(** The left ear peaks first on a right-side speaker: rejected. *)
Lemma crop_ir_head_left_first :
  peak_left < peak_right -> right_side speaker ->
  crop_ir_head find_peaks kaiser left right speaker fs head_ms
  = Raise (ValueError (left_first_msg speaker)).
Proof.
  intros Hlt Hside. unfold crop_ir_head.
  rewrite left_peak, right_peak. cbn [bind]. rewrite delay_found. cbn [bind].
  destruct (Nat.ltb_spec peak_left peak_right) as [ _ | ? ]; [ | lia ].
  unfold second_char_is. unfold right_side in Hside. rewrite Hside.
  reflexivity.
Qed.

(** The right ear peaks first, or together with the left ear, on a
    left-side speaker: rejected. *)
Lemma crop_ir_head_right_first :
  peak_right <= peak_left -> left_side speaker ->
  crop_ir_head find_peaks kaiser left right speaker fs head_ms
  = Raise (ValueError (right_first_msg speaker)).
Proof.
  intros Hle Hside. unfold crop_ir_head.
  rewrite left_peak, right_peak. cbn [bind]. rewrite delay_found. cbn [bind].
  destruct (Nat.ltb_spec peak_left peak_right) as [ ? | _ ]; [ lia | ].
  unfold second_char_is. unfold left_side in Hside. rewrite Hside.
  reflexivity.
Qed.

(** Otherwise both channels are cropped from the same start index, the
    earlier peak minus the channel delay, and faded in. *)
Lemma crop_ir_head_passes :
  (peak_left < peak_right /\ ~ right_side speaker) \/
  (peak_right <= peak_left /\ ~ left_side speaker) ->
  crop_ir_head find_peaks kaiser left right speaker fs head_ms
  = (left' <- imul_head head window (slice_from start left) ;;
     right' <- imul_head head window (slice_from start right) ;;
     Ok (left', right')).
Proof.
  intros Hside. pose proof (recognized_channel_delay _ _ _ _ delay_found) as Hrec.
  unfold crop_ir_head.
  rewrite left_peak, right_peak. cbn [bind]. rewrite delay_found. cbn [bind].
  fold head. fold window.
  destruct (Nat.ltb_spec peak_left peak_right) as [ Hlt | Hge ].
  - destruct Hside as [ [ _ Hns ] | [ ? _ ] ]; [ | lia ].
    replace (Z.of_nat peak_left - delay)%Z with start by (unfold start; lia).
    replace (Z.of_nat peak_right
             - (delay + Z.abs (Z.of_nat peak_left - Z.of_nat peak_right)))%Z
      with start by (unfold start; lia).
    clear delay_found.
    each_speaker Hrec; eval_side_test; cbn [bind fst snd];
      first [ reflexivity | exfalso; apply Hns; reflexivity ].
  - destruct Hside as [ [ ? _ ] | [ _ Hns ] ]; [ lia | ].
    replace (Z.of_nat peak_right - delay)%Z with start by (unfold start; lia).
    replace (Z.of_nat peak_left
             - (delay + Z.abs (Z.of_nat peak_left - Z.of_nat peak_right)))%Z
      with start by (unfold start; lia).
    clear delay_found.
    each_speaker Hrec; eval_side_test; cbn [bind fst snd];
      first [ reflexivity | exfalso; apply Hns; reflexivity ].
Qed.

Lemma side_decidable :
  (right_side speaker \/ ~ right_side speaker) /\
  (left_side speaker \/ ~ left_side speaker).
Proof.
  unfold right_side, left_side.
  destruct (String.get 1 speaker) as [ a | ].
  - split.
    + destruct (ascii_dec a "R") as [ -> | Hn ]; [ now left | right ].
      intro E. inversion E. contradiction.
    + destruct (ascii_dec a "L") as [ -> | Hn ]; [ now left | right ].
      intro E. inversion E. contradiction.
  - split; right; discriminate.
Qed.

(** When [crop_ir_head] raises one of its two delay-ordering errors. *)
Lemma crop_ir_head_ordering_error :
  (crop_ir_head find_peaks kaiser left right speaker fs head_ms
     = Raise (ValueError (left_first_msg speaker))
   <-> peak_left < peak_right /\ right_side speaker) /\
  (crop_ir_head find_peaks kaiser left right speaker fs head_ms
     = Raise (ValueError (right_first_msg speaker))
   <-> peak_right <= peak_left /\ left_side speaker).
Proof.
  pose proof (recognized_channel_delay _ _ _ _ delay_found) as Hrec.
  destruct side_decidable as [ HR HL ].
  assert (Hpass :
    (peak_left < peak_right /\ ~ right_side speaker) \/
    (peak_right <= peak_left /\ ~ left_side speaker) ->
    forall msg,
      crop_ir_head find_peaks kaiser left right speaker fs head_ms
        = Raise (ValueError msg) ->
      msg = "operands could not be broadcast together").
  { intros Hside msg. rewrite (crop_ir_head_passes Hside).
    unfold imul_head.
    repeat match goal with
           | |- context [if ?b then _ else _] => destruct b
           end; cbn [bind]; intro E; inversion E; reflexivity. }
  assert (Hmsg : left_first_msg speaker <> "operands could not be broadcast together"
                 /\ right_first_msg speaker <> "operands could not be broadcast together"
                 /\ left_first_msg speaker <> right_first_msg speaker).
  { clear -Hrec. each_speaker Hrec; repeat split; discriminate. }
  destruct Hmsg as (Hm1 & Hm2 & Hm3).
  destruct (Nat.lt_ge_cases peak_left peak_right) as [ Hlt | Hge ].
  - destruct HR as [ HR | HR ].
    + rewrite (crop_ir_head_left_first Hlt HR). split.
      * split; [ intros _; now split | reflexivity ].
      * split; [ intro E; inversion E; congruence | intros [ ? _ ]; lia ].
    + split.
      * split; [ | intros [ _ ? ]; contradiction ].
        intro E. apply Hpass in E; [ contradiction | left; now split ].
      * split; [ | intros [ ? _ ]; lia ].
        intro E. apply Hpass in E; [ contradiction | left; now split ].
  - destruct HL as [ HL | HL ].
    + rewrite (crop_ir_head_right_first Hge HL). split.
      * split; [ intro E; inversion E; congruence | intros [ ? _ ]; lia ].
      * split; [ intros _; now split | reflexivity ].
    + split.
      * split; [ | intros [ ? _ ]; lia ].
        intro E. apply Hpass in E; [ contradiction | right; now split ].
      * split; [ | intros [ _ ? ]; contradiction ].
        intro E. apply Hpass in E; [ contradiction | right; now split ].
Qed.

End HeadAlignerFacts.

Lemma required_lead_near (delay : Z) (peak other : nat) :
  peak <= other -> required_lead delay peak other = delay.
Proof. unfold required_lead. lia. Qed.

Lemma required_lead_far (delay : Z) (peak other : nat) :
  other <= peak ->
  required_lead delay peak other
  = (delay + Z.abs (Z.of_nat peak - Z.of_nat other))%Z.
Proof. unfold required_lead. lia. Qed.

Lemma faded_crop_preceded (x y : list Q) (p s lead head : nat) :
  length y = length x - s ->
  (forall j, head <= j -> nth_error y j = nth_error x (s + j)) ->
  p < length x -> head <= lead -> s + lead = p ->
  peak_preceded_by y x p (Z.of_nat lead).
Proof.
  intros Hlen Hnth Hp Hh Hs. unfold peak_preceded_by.
  split; [ lia | ]. split; [ lia | ].
  intro j. rewrite Nat2Z.id. rewrite Hnth by lia. f_equal. lia.
Qed.

(** C2 (as the code has it).  For a left/right pair that passes the side
    check and whose earlier peak index is at least the channel delay
    [round(tableDelay/1000 * rate) + headRoom], [crop_ir_head] returns a pair
    in which exactly that many samples precede the peak of the ear that
    peaks first and that many plus the interaural time difference precede the
    peak of the other ear. *)
Theorem crop_ir_head_aligns
  (find_peaks : list Q -> Q -> list nat) (kaiser : nat -> Q -> list Q)
  (left right : list Q) (speaker : string) (fs head_ms : nat)
  (peak_left peak_right : nat) (delay : Z) :
  (forall M beta, length (kaiser M beta) = M) ->
  first_peak find_peaks left = Ok peak_left ->
  first_peak find_peaks right = Ok peak_right ->
  peak_left < length left ->
  peak_right < length right ->
  channel_delay speaker fs head_ms = Ok delay ->
  (peak_left < peak_right /\ ~ right_side speaker) \/
  (peak_right <= peak_left /\ ~ left_side speaker) ->
  (delay <= Z.of_nat (Nat.min peak_left peak_right))%Z ->
  exists left' right',
    crop_ir_head find_peaks kaiser left right speaker fs head_ms
      = Ok (left', right') /\
    peak_preceded_by left' left peak_left
      (required_lead delay peak_left peak_right) /\
    peak_preceded_by right' right peak_right
      (required_lead delay peak_right peak_left).
Proof.
  intros Hk Hpl Hpr Hll Hlr Hd Hside Hlead.
  rewrite (crop_ir_head_passes _ kaiser _ _ _ _ _ _ _ _ Hpl Hpr Hd Hside).
  pose proof (channel_delay_head_room _ _ _ _ Hd) as Hhead.
  pose proof (window_length kaiser (head_room fs head_ms) Hk) as Hw.
  set (head := head_room fs head_ms) in *.
  set (m := Nat.min peak_left peak_right) in *.
  assert (Hs : (0 <= Z.of_nat m - delay)%Z) by lia.
  rewrite !(slice_from_nonneg _ _ Hs).
  set (s := Z.to_nat (Z.of_nat m - delay)).
  destruct (imul_head_fits head _ (skipn s left) Hw) as (l' & El & Ell & Enl).
  { rewrite length_skipn. lia. }
  destruct (imul_head_fits head _ (skipn s right) Hw) as (r' & Er & Elr & Enr).
  { rewrite length_skipn. lia. }
  exists l', r'. rewrite El. cbn [bind]. rewrite Er. cbn [bind].
  split; [ reflexivity | ].
  unfold required_lead. fold m. replace (Nat.min peak_right peak_left) with m by lia.
  rewrite length_skipn in Ell, Elr.
  split.
  - replace (delay + Z.of_nat (peak_left - m))%Z
      with (Z.of_nat (Z.to_nat delay + (peak_left - m))) by lia.
    apply (faded_crop_preceded left l' peak_left s _ head); try lia.
    intros j Hj. rewrite Enl by exact Hj. apply nth_error_skipn.
  - replace (delay + Z.of_nat (peak_right - m))%Z
      with (Z.of_nat (Z.to_nat delay + (peak_right - m))) by lia.
    apply (faded_crop_preceded right r' peak_right s _ head); try lia.
    intros j Hj. rewrite Enr by exact Hj. apply nth_error_skipn.
Qed.

Lemma crop_ir_head_aligns_witness :
  exists left' right',
    crop_ir_head scipy_find_peaks unit_window
      (repeat 0%Q 9 ++ [1; 0; 0]%Q) (repeat 0%Q 11 ++ [1; 0; 0]%Q)
      "FL" (8 * 1000) 1
      = Ok (left', right') /\
    peak_preceded_by left' (repeat 0%Q 9 ++ [1; 0; 0]%Q) 9
      (required_lead 9 9 11) /\
    peak_preceded_by right' (repeat 0%Q 11 ++ [1; 0; 0]%Q) 11
      (required_lead 9 11 9).
Proof.
  apply (crop_ir_head_aligns scipy_find_peaks unit_window
           (repeat 0%Q 9 ++ [1; 0; 0]%Q) (repeat 0%Q 11 ++ [1; 0; 0]%Q)
           "FL" (8 * 1000) 1 9 11 9%Z).
  - intros M beta. apply repeat_length.
  - vm_compute. reflexivity.
  - vm_compute. reflexivity.
  - simpl. lia.
  - simpl. lia.
  - vm_compute. reflexivity.
  - left. split; [ lia | unfold right_side; simpl; discriminate ].
  - simpl. lia.
Defined.

(** A front-left pair at 8 kHz (channel delay 9 samples, head room 8) whose
    left peak sits at index 1: the side check passes, the crop starts at
    index -8 and keeps the last 8 of the 12 samples, which do not even hold
    the peak. *)
Lemma crop_ir_head_early_peak_misaligned :
  let left := ([0; 1] ++ repeat 0 10)%Q in
  let right := ([0; 0; 0; 1] ++ repeat 0 8)%Q in
  first_peak scipy_find_peaks left = Ok 1 /\
  first_peak scipy_find_peaks right = Ok 3 /\
  channel_delay "FL" (8 * 1000) 1 = Ok 9%Z /\
  ~ spec_contradicts_side "FL" 1 3 /\
  exists left' right',
    crop_ir_head scipy_find_peaks unit_window left right "FL" (8 * 1000) 1
      = Ok (left', right') /\
    length left' = 8 /\
    ~ peak_preceded_by left' left 1 (required_lead 9 1 3).
Proof.
  cbv zeta.
  split; [ vm_compute; reflexivity | ].
  split; [ vm_compute; reflexivity | ].
  split; [ vm_compute; reflexivity | ].
  split.
  { unfold spec_contradicts_side, right_side, left_side. simpl.
    intros [ [ _ H ] | [ H _ ] ]; [ discriminate | lia ]. }
  eexists. eexists.
  split; [ vm_compute; reflexivity | ].
  split; [ reflexivity | ].
  unfold peak_preceded_by. intros (_ & Hlen & _).
  vm_compute in Hlen. discriminate.
Qed.

(** C3. With both ears peaking at the same sample (index 2) neither ear
    arrives earlier, so the front-left label is not contradicted; yet
    [crop_ir_head] raises its "lower delay to right ear than to left"
    error. *)
Theorem crop_ir_head_rejects_simultaneous_peaks :
  let left := [0; 0; 1; 0; 0]%Q in
  let right := [0; 0; 1 # 2; 0; 0]%Q in
  first_peak scipy_find_peaks left = Ok 2 /\
  first_peak scipy_find_peaks right = Ok 2 /\
  ~ spec_contradicts_side "FL" 2 2 /\
  crop_ir_head scipy_find_peaks unit_window left right "FL" (8 * 1000) 1
  = Raise (ValueError
             "FL impulse response has lower delay to right ear than to left.").
Proof.
  cbv zeta.
  split; [ vm_compute; reflexivity | ].
  split; [ vm_compute; reflexivity | ].
  split; [ | vm_compute; reflexivity ].
  unfold spec_contradicts_side. intros [ [ H _ ] | [ H _ ] ]; lia.
Qed.

(** C10 (as the code has it).  When the side check passes and the earlier
    peak index is smaller than the channel delay, the common crop start is
    negative and both slices wrap: each keeps the last [k] samples of its
    channel ([k] the shortfall, or the whole channel when it has no more),
    and neither has its peak at the required lead.  The pair is returned
    when both wrapped slices hold at least head-room samples; when one is
    shorter (head room 2 or more) the fade-in raises a shape error.  Nothing
    is padded. *)
Theorem crop_ir_head_early_peak
  (find_peaks : list Q -> Q -> list nat) (kaiser : nat -> Q -> list Q)
  (left right : list Q) (speaker : string) (fs head_ms : nat)
  (peak_left peak_right : nat) (delay : Z) :
  (forall M beta, length (kaiser M beta) = M) ->
  first_peak find_peaks left = Ok peak_left ->
  first_peak find_peaks right = Ok peak_right ->
  peak_left < length left ->
  peak_right < length right ->
  channel_delay speaker fs head_ms = Ok delay ->
  (peak_left < peak_right /\ ~ right_side speaker) \/
  (peak_right <= peak_left /\ ~ left_side speaker) ->
  (Z.of_nat (Nat.min peak_left peak_right) < delay)%Z ->
  let head := head_room fs head_ms in
  let start := (Z.of_nat (Nat.min peak_left peak_right) - delay)%Z in
  let k := Z.to_nat (- start) in
  let wrapped_left := skipn (length left - k) left in
  let wrapped_right := skipn (length right - k) right in
  (start < 0)%Z /\
  slice_from start left = wrapped_left /\
  slice_from start right = wrapped_right /\
  length wrapped_left = Nat.min k (length left) /\
  length wrapped_right = Nat.min k (length right) /\
  (head <= length wrapped_left -> head <= length wrapped_right ->
   exists left' right',
     crop_ir_head find_peaks kaiser left right speaker fs head_ms
       = Ok (left', right') /\
     length left' = length wrapped_left /\
     length right' = length wrapped_right /\
     (forall j, head <= j -> nth_error left' j = nth_error wrapped_left j) /\
     (forall j, head <= j -> nth_error right' j = nth_error wrapped_right j) /\
     ~ peak_preceded_by left' left peak_left
         (required_lead delay peak_left peak_right) /\
     ~ peak_preceded_by right' right peak_right
         (required_lead delay peak_right peak_left)) /\
  (2 <= head ->
   length wrapped_left < head \/ length wrapped_right < head ->
   crop_ir_head find_peaks kaiser left right speaker fs head_ms
   = Raise (ValueError "operands could not be broadcast together")).
Proof.
  intros Hk Hpl Hpr Hll Hlr Hd Hside Hearly head start k wl wr.
  assert (Hneg : (start < 0)%Z) by (unfold start; lia).
  assert (El : slice_from start left = wl) by (apply slice_from_neg; exact Hneg).
  assert (Er : slice_from start right = wr) by (apply slice_from_neg; exact Hneg).
  assert (Hwl : length wl = Nat.min k (length left))
    by (unfold wl; rewrite length_skipn; lia).
  assert (Hwr : length wr = Nat.min k (length right))
    by (unfold wr; rewrite length_skipn; lia).
  pose proof (window_length kaiser head Hk) as Hw.
  pose proof (crop_ir_head_passes _ kaiser _ _ _ _ _ _ _ _ Hpl Hpr Hd Hside) as Hc.
  fold head in Hc. fold start in Hc. rewrite El, Er in Hc.
  repeat (split; [ assumption | ]).
  split.
  - intros Hhl Hhr.
    destruct (imul_head_fits head _ wl Hw Hhl) as (l' & Eil & Ell & Enl).
    destruct (imul_head_fits head _ wr Hw Hhr) as (r' & Eir & Elr & Enr).
    exists l', r'. rewrite Hc, Eil. cbn [bind]. rewrite Eir. cbn [bind].
    repeat (split; [ first [ reflexivity | assumption ] | ]).
    unfold peak_preceded_by, required_lead.
    split; intros (_ & Hlen & _); lia.
  - intros Hh [ Hs | Hs ]; rewrite Hc.
    + rewrite (imul_head_short head _ wl Hw Hs Hh). reflexivity.
    + destruct (Nat.lt_ge_cases (length wl) head) as [ Hs' | Hge ].
      * rewrite (imul_head_short head _ wl Hw Hs' Hh). reflexivity.
      * destruct (imul_head_fits head _ wl Hw Hge) as (l' & Eil & _).
        rewrite Eil. cbn [bind].
        rewrite (imul_head_short head _ wr Hw Hs Hh). reflexivity.
Qed.

Lemma crop_ir_head_early_peak_witness :
  (Z.of_nat (Nat.min 1 3) < 9)%Z /\
  exists left' right',
    crop_ir_head scipy_find_peaks unit_window
      ([0; 1] ++ repeat 0 10)%Q ([0; 0; 0; 1] ++ repeat 0 8)%Q
      "FL" (8 * 1000) 1
      = Ok (left', right') /\
    length left' = 8 /\ length right' = 8.
Proof.
  split; [ simpl; lia | ].
  destruct (crop_ir_head_early_peak scipy_find_peaks unit_window
              ([0; 1] ++ repeat 0 10)%Q ([0; 0; 0; 1] ++ repeat 0 8)%Q
              "FL" (8 * 1000) 1 1 3 9%Z)
    as (_ & _ & _ & Hl & Hr & Hok & _).
  - intros M beta. apply repeat_length.
  - vm_compute. reflexivity.
  - vm_compute. reflexivity.
  - simpl. lia.
  - simpl. lia.
  - vm_compute. reflexivity.
  - left. split; [ lia | unfold right_side; simpl; discriminate ].
  - simpl. lia.
  - destruct Hok as (l' & r' & Hc & Hll & Hlr & _).
    + rewrite Hl. apply Nat.leb_le. vm_compute. reflexivity.
    + rewrite Hr. apply Nat.leb_le. vm_compute. reflexivity.
    + exists l', r'. split; [ exact Hc | ].
      rewrite Hll, Hlr, Hl, Hr. split; reflexivity.
Defined.

(** The same front-left pair at 8 kHz with the left peak at index 2: the
    crop starts at index -7, the wrapped slices hold 7 samples, fewer than
    the head room of 8, and the call fails in the fade-in instead of
    returning a shortened response. *)
Lemma crop_ir_head_early_peak_raises :
  let left := ([0; 0; 1] ++ repeat 0 9)%Q in
  let right := ([0; 0; 0; 1] ++ repeat 0 8)%Q in
  first_peak scipy_find_peaks left = Ok 2 /\
  first_peak scipy_find_peaks right = Ok 3 /\
  channel_delay "FL" (8 * 1000) 1 = Ok 9%Z /\
  head_room (8 * 1000) 1 = 8 /\
  ~ spec_contradicts_side "FL" 2 3 /\
  crop_ir_head scipy_find_peaks unit_window left right "FL" (8 * 1000) 1
  = Raise (ValueError "operands could not be broadcast together").
Proof.
  cbv zeta.
  repeat (split; [ vm_compute; reflexivity | ]).
  split; [ | vm_compute; reflexivity ].
  unfold spec_contradicts_side, right_side, left_side. simpl.
  intros [ [ _ H ] | [ H _ ] ]; [ discriminate | lia ].
Qed.

(** ** Deconvolver *)

Lemma convolve_full_length (a b : list Q) :
  a <> [] -> b <> [] -> length (convolve_full a b) = length a + length b - 1.
Proof.
  intros Ha Hb. destruct a as [ | x a ]; [ contradiction | ].
  destruct b as [ | y b ]; [ contradiction | ].
  unfold convolve_full. now rewrite length_map, length_seq.
Qed.

(** [h[n : 2n+1]] holds the at most [n+1] samples from index [n] on. *)
Lemma slice_window {A : Type} (n : nat) (h : list A) :
  slice (Z.of_nat n) (Z.of_nat n * 2 + 1) h = firstn (n + 1) (skipn n h).
Proof.
  unfold slice. rewrite !adjust_index_nonneg by lia.
  replace (Z.to_nat (Z.of_nat n * 2 + 1)) with (2 * n + 1) by lia.
  rewrite Nat2Z.id.
  destruct (Nat.le_gt_cases (length h) n) as [ Hle | Hgt ].
  - rewrite (Nat.min_l _ _ Hle). rewrite skipn_all.
    rewrite (skipn_all2 _ Hle). now rewrite !firstn_nil.
  - rewrite (Nat.min_r (length h) n) by lia.
    destruct (Nat.le_gt_cases (2 * n + 1) (length h)) as [ Hfull | Hshort ].
    + rewrite Nat.min_r by lia. f_equal. lia.
    + rewrite Nat.min_l by lia.
      rewrite !firstn_all2; [ reflexivity | | ]; rewrite length_skipn; lia.
Qed.

Section DeconvolverFacts.

Variable exp_taper : nat -> nat -> nat -> Q.
Variable probe_magnitude : list Q -> Q.
Variable fft_division : list Q -> list Q -> list Q.

Lemma weighted_flip_length (test_signal : list Q) (fs : nat) :
  length (weighted_flip exp_taper test_signal fs) = length test_signal.
Proof.
  unfold weighted_flip.
  rewrite length_map, length_combine, length_rev, length_map, length_seq.
  lia.
Qed.

Lemma inverse_filter_length (test_signal : list Q) (fs : nat) :
  length (inverse_filter exp_taper probe_magnitude test_signal fs)
  = length test_signal.
Proof.
  unfold inverse_filter. rewrite length_map. apply weighted_flip_length.
Qed.

(** The inverse-filter branch, once its guards are passed. *)
Lemma deconv_inverse_filter (recording test_signal : list Q) (fs : nat) :
  2 <= length test_signal -> fs <> 0 ->
  ~ (probe_magnitude
       (convolve_full (weighted_flip exp_taper test_signal fs) test_signal)
     == 0)%Q ->
  deconv exp_taper probe_magnitude fft_division recording test_signal
    "inverse_filter" (Some fs)
  = Ok (firstn (length test_signal + 1)
          (skipn (length test_signal)
             (convolve_full recording
                (inverse_filter exp_taper probe_magnitude test_signal fs)
              ++ [0%Q]))).
Proof.
  intros Hn Hfs Hprobe. unfold deconv.
  change (String.eqb "inverse_filter" "fft") with false.
  change (String.eqb "inverse_filter" "inverse_filter") with true.
  cbv iota.
  destruct (Nat.eqb_spec fs 0) as [ ? | _ ]; [ contradiction | ].
  destruct (Nat.eqb_spec (length test_signal) 1) as [ ? | _ ]; [ lia | ].
  destruct (Nat.eqb_spec (length test_signal) 0) as [ ? | _ ]; [ lia | ].
  destruct (Qeq_bool _ 0) eqn:Ep.
  { apply Qeq_bool_iff in Ep. contradiction. }
  now rewrite slice_window.
Qed.

End DeconvolverFacts.

(** C7 (as the code has it).  For a reference of [n] samples, [n] at least
    two, a non-zero rate and a non-zero normalisation probe, the inverse-filter
    method returns the samples from index [n] up to index [2n] of the full
    linear convolution of the recording with the normalized inverse filter
    followed by one appended zero, as far as they exist: [min (n+1) len]
    samples for a recording of [len] samples.  This is the window of [n+1]
    convolution samples when the recording has at least [n+2] samples; for a
    recording of [n] samples, as in the main pipeline, it is the [n-1]
    remaining convolution samples followed by the appended zero, [n] samples
    in all. *)
Theorem deconv_window
  (exp_taper : nat -> nat -> nat -> Q) (probe_magnitude : list Q -> Q)
  (fft_division : list Q -> list Q -> list Q)
  (recording test_signal : list Q) (fs : nat) :
  2 <= length test_signal -> fs <> 0 ->
  ~ (probe_magnitude
       (convolve_full (weighted_flip exp_taper test_signal fs) test_signal)
     == 0)%Q ->
  let n := length test_signal in
  let full :=
    convolve_full recording
      (inverse_filter exp_taper probe_magnitude test_signal fs) in
  exists h,
    deconv exp_taper probe_magnitude fft_division recording test_signal
      "inverse_filter" (Some fs) = Ok h /\
    h = firstn (n + 1) (skipn n (full ++ [0%Q])) /\
    length h = Nat.min (n + 1) (length recording) /\
    (n + 2 <= length recording -> h = firstn (n + 1) (skipn n full)) /\
    (length recording = n -> h = skipn n full ++ [0%Q] /\ length h = n).
Proof.
  intros Hn Hfs Hprobe n full.
  eexists. split.
  { apply deconv_inverse_filter; assumption. }
  fold n. fold full. split; [ reflexivity | ].
  assert (Hpos : 0 < n) by (unfold n; lia).
  assert (Hinv : length (inverse_filter exp_taper probe_magnitude test_signal fs) = n)
    by apply inverse_filter_length.
  assert (Hfull : length full = if length recording =? 0 then 0
                                else length recording + n - 1).
  { destruct (Nat.eqb_spec (length recording) 0) as [ E | E ].
    - destruct recording; [ reflexivity | discriminate E ].
    - unfold full. rewrite convolve_full_length, Hinv; [ reflexivity | | ].
      + intro H. now rewrite H in E.
      + intro H. rewrite H in Hinv. simpl in Hinv. lia. }
  assert (Hlen : length (firstn (n + 1) (skipn n (full ++ [0%Q])))
                 = Nat.min (n + 1) (length recording)).
  { rewrite length_firstn, length_skipn, length_app, Hfull. simpl.
    destruct (Nat.eqb_spec (length recording) 0); lia. }
  split; [ exact Hlen | ]. split.
  - intro Hlong.
    assert (Hf : length full = length recording + n - 1).
    { rewrite Hfull. destruct (Nat.eqb_spec (length recording) 0); lia. }
    rewrite skipn_app, firstn_app, length_skipn.
    replace (n + 1 - (length full - n)) with 0 by lia.
    rewrite firstn_O. apply app_nil_r.
  - intro Hsame.
    assert (Hf : length full = 2 * n - 1).
    { rewrite Hfull. destruct (Nat.eqb_spec (length recording) 0); lia. }
    assert (E : firstn (n + 1) (skipn n (full ++ [0%Q])) = skipn n full ++ [0%Q]).
    { rewrite skipn_app. replace (n - length full) with 0 by lia.
      rewrite skipn_O. apply firstn_all2.
      rewrite length_app, length_skipn. simpl. lia. }
    split; [ exact E | ]. rewrite Hlen. lia.
Qed.

Lemma deconv_window_witness :
  exists h,
    deconv flat_taper unit_probe no_fft [1; 2; 3; 4]%Q [1; 1]%Q
      "inverse_filter" (Some (48 * 1000)) = Ok h /\
    length h = 3 /\
    h = firstn 3 (skipn 2 (convolve_full [1; 2; 3; 4]%Q
                             (inverse_filter flat_taper unit_probe [1; 1]%Q
                                (48 * 1000)))).
Proof.
  destruct (deconv_window flat_taper unit_probe no_fft
              [1; 2; 3; 4]%Q [1; 1]%Q (48 * 1000))
    as (h & Hd & _ & Hlen & Hlong & _).
  - simpl. lia.
  - discriminate.
  - vm_compute. discriminate.
  - exists h. split; [ exact Hd | ].
    split; [ exact Hlen | ].
    apply Hlong. simpl. lia.
Defined.

(** A one-sample reference is squeezed to a scalar: whatever the recording,
    the inverse-filter method stops at [len(test_signal)]. *)
Lemma deconv_one_sample_reference
  (exp_taper : nat -> nat -> nat -> Q) (probe_magnitude : list Q -> Q)
  (fft_division : list Q -> list Q -> list Q)
  (recording : list Q) (sample : Q) (fs : nat) :
  deconv exp_taper probe_magnitude fft_division recording [sample]
    "inverse_filter" (Some (S fs))
  = Raise (TypeError "len() of unsized object").
Proof. reflexivity. Qed.

(** A recording as long as the two-sample reference, as in the main
    pipeline: the full convolution has three samples, the result holds its
    last sample and the appended zero, two samples and not three. *)
Lemma deconv_equal_length_window_short :
  convolve_full [1; 1]%Q (inverse_filter flat_taper unit_probe [1; 1]%Q (48 * 1000))
    = [1; 2; 1]%Q /\
  deconv flat_taper unit_probe no_fft [1; 1]%Q [1; 1]%Q
    "inverse_filter" (Some (48 * 1000)) = Ok [1; 0]%Q /\
  length [1; 0]%Q <> length [1; 1]%Q + 1.
Proof.
  split; [ vm_compute; reflexivity | ].
  split; [ vm_compute; reflexivity | ].
  simpl. lia.
Qed.

(** ** Tail Truncator *)





Lemma vstack_equal_lengths (tracks : list (list Q)) (n : nat) :
  tracks <> [] -> Forall (fun r => length r = n) tracks ->
  vstack tracks = Ok (mk_ndarray2 n tracks).
Proof.
  intros Hne Hall. destruct tracks as [ | t rest ]; [ contradiction | ].
  inversion Hall as [ | ? ? Ht Hrest ]; subst. unfold vstack.
  replace (forallb (fun r => length r =? length t) rest) with true;
    [ reflexivity | ].
  symmetry. apply forallb_forall. intros r Hr. apply Nat.eqb_eq.
  rewrite Forall_forall in Hrest. now apply Hrest.
Qed.


Section TailTruncatorFacts.

Variable impulse_response_decay : list Q -> nat -> nat -> result (list Q).
Variable fs : nat.



End TailTruncatorFacts.




(** At 1100 Hz the analysis window holds one sample while the index is
    scaled by 1.1: two channels of thirty samples get the cutoff 31, beyond
    their end; both keep their thirty samples and the stacking succeeds. *)
Lemma truncate_tails_cutoff_beyond_end :
  tail_cutoff (impulse_response_decay magnitude_level identity_filter) 1100
    [late_channel; late_channel] = Ok 31%Z /\
  length late_channel = 30 /\
  crop_tails (impulse_response_decay magnitude_level identity_filter) 1100
    [late_channel; late_channel]
  = Ok (mk_ndarray2 30 [late_channel; late_channel]).
Proof.
  split; [ vm_compute; reflexivity | ].
  split; [ reflexivity | vm_compute; reflexivity ].
Qed.

(** ** Normalizer: when the target level is reached *)

(** [normalize] multiplies every sample by the one factor [gain / |m|],
    [m] being the largest signed sample. *)
Lemma normalize_common_factor (x : ndarray2) (gain : Q) (i : nat) :
  argmax (concat (rows x)) = Some i ->
  ~ (nth i (concat (rows x)) 0 == 0)%Q ->
  normalize x gain
  = Ok (mk_ndarray2 (shape1 x)
          (map (map (fun v => (v / Qabs (nth i (concat (rows x)) 0) * gain)%Q))
               (rows x))).
Proof.
  intros Hi Hm. unfold normalize. rewrite Hi.
  destruct (Qeq_bool (Qabs (nth i (concat (rows x)) 0%Q)) 0) eqn:E;
    [ | reflexivity ].
  exfalso. apply Qeq_bool_iff in E. apply Hm.
  assert (Hle : (Qabs (nth i (concat (rows x)) 0%Q) <= 0)%Q)
    by (rewrite E; apply Qle_refl).
  apply Qabs_Qle_condition in Hle. destruct Hle as [ Hlo Hhi ].
  apply Qle_antisym; assumption.
Qed.

(** When the largest signed sample [m] is positive and no sample exceeds it
    in magnitude, the scaled sample of [m] sits on the target level and no
    scaled sample exceeds the target level in magnitude. *)
Lemma normalize_reaches_target (m gain : Q) :
  (0 < m)%Q -> (0 <= gain)%Q ->
  (m / Qabs m * gain == gain)%Q /\
  forall v, (Qabs v <= m)%Q -> (Qabs (v / Qabs m * gain) <= gain)%Q.
Proof.
  intros Hm Hg.
  assert (Habs : (Qabs m == m)%Q) by (apply Qabs_pos; now apply Qlt_le_weak).
  assert (Hne : ~ (m == 0)%Q).
  { intro E. rewrite E in Hm. discriminate Hm. }
  split.
  - rewrite Habs. field. exact Hne.
  - intros v Hv. rewrite Habs.
    rewrite Qabs_Qmult. rewrite (Qabs_pos gain) by exact Hg.
    unfold Qdiv. rewrite Qabs_Qmult, Qabs_Qinv, Habs.
    rewrite <- (Qmult_1_l gain) at 2.
    apply Qmult_le_compat_r; [ | exact Hg ].
    apply Qle_shift_div_r; [ exact Hm | ]. now rewrite Qmult_1_l.
Qed.

(** * Further properties *)

(** ** [zero_pad] *)

(** Padding to a target at least as long as the data appends zeros to every
    row: the width becomes the target, the row count is kept and every
    sample keeps its index. *)
Theorem zero_pad_pads (data : ndarray2) (max_samples : Z) :
  wf_ndarray2 data ->
  (Z.of_nat (shape1 data) <= max_samples)%Z ->
  exists out,
    zero_pad data max_samples = Ok out /\
    Z.of_nat (shape1 out) = max_samples /\
    shape0 out = shape0 data /\
    wf_ndarray2 out /\
    forall i row, nth_error (rows data) i = Some row ->
      nth_error (rows out) i
      = Some (row ++ zeros (Z.to_nat max_samples - shape1 data)).
Proof.
  intros Hwf Hle. unfold zero_pad.
  destruct (Z.ltb_spec (max_samples - Z.of_nat (shape1 data)) 0) as [ ? | _ ];
    [ lia | ].
  replace (Z.to_nat (max_samples - Z.of_nat (shape1 data)))
    with (Z.to_nat max_samples - shape1 data) by lia.
  eexists. split; [ reflexivity | ].
  unfold shape0, wf_ndarray2. cbn [rows shape1].
  split; [ lia | ]. split; [ apply length_map | ]. split.
  - apply Forall_forall. intros r Hr. apply in_map_iff in Hr.
    destruct Hr as (row & <- & Hrow).
    unfold wf_ndarray2 in Hwf. rewrite Forall_forall in Hwf.
    rewrite length_app, (Hwf row Hrow). unfold zeros. now rewrite repeat_length.
  - intros i row Hi. rewrite nth_error_map, Hi. reflexivity.
Qed.

Lemma zero_pad_pads_witness :
  exists out,
    zero_pad (mk_ndarray2 2 [[1; 2]; [3; 4]]%Q) 5 = Ok out /\
    rows out = [[1; 2; 0; 0; 0]; [3; 4; 0; 0; 0]]%Q.
Proof.
  destruct (zero_pad_pads (mk_ndarray2 2 [[1; 2]; [3; 4]]%Q) 5)
    as (out & Hz & _).
  - repeat constructor.
  - simpl. lia.
  - exists out. split; [ exact Hz | ].
    vm_compute in Hz. inversion Hz. reflexivity.
Defined.

(** A target shorter than the data is refused, and it is the only thing
    [zero_pad] refuses: nothing is ever cut. *)
Theorem zero_pad_never_truncates (data : ndarray2) (max_samples : Z) :
  zero_pad data max_samples
    = Raise (ValueError "negative dimensions are not allowed")
  <-> (max_samples < Z.of_nat (shape1 data))%Z.
Proof.
  unfold zero_pad.
  destruct (Z.ltb_spec (max_samples - Z.of_nat (shape1 data)) 0) as [ H | H ].
  - split; [ lia | reflexivity ].
  - split; [ discriminate | lia ].
Qed.

(** ** [to_float] and [write_wav] *)

Lemma trunc_bounds (n : Z) (d : positive) :
  (Z.quot n (Zpos d) * Zpos d <= n < (Z.quot n (Zpos d) + 1) * Zpos d
   /\ 0 <= n)%Z \/
  ((Z.quot n (Zpos d) - 1) * Zpos d < n <= Z.quot n (Zpos d) * Zpos d
   /\ n <= 0)%Z.
Proof.
  pose proof (Z.quot_rem' n (Zpos d)) as E.
  assert (Hd : (0 < Zpos d)%Z) by lia.
  destruct (Z.le_gt_cases 0 n) as [ Hn | Hn ].
  - left.
    pose proof (Z.rem_bound_pos n (Zpos d) Hn Hd) as B.
    set (q := Z.quot n (Zpos d)) in *. set (r := Z.rem n (Zpos d)) in *.
    nia.
  - right.
    assert (B : (- Zpos d < Z.rem n (Zpos d) <= 0)%Z).
    { pose proof (Z.rem_bound_pos (- n) (Zpos d) ltac:(lia) Hd) as B.
      rewrite Z.rem_opp_l in B by lia. lia. }
    set (q := Z.quot n (Zpos d)) in *. set (r := Z.rem n (Zpos d)) in *.
    nia.
Qed.



(** Writing what [to_float] produced of an integer sample: a 32-bit sample
    comes back unchanged, a 16-bit sample scaled by 2^16 and an 8-bit sample
    re-centred and scaled by 2^24. *)
Theorem write_wav_after_to_float (d : dtype) (z : Z) :
  dtype_holds d z ->
  write_wav_sample (to_float_sample d (inject_Z z))
  = Some (match d with
          | int32 => z
          | int16 => z * 2 ^ 16
          | uint8 => (z - 128) * 2 ^ 24
          | other_dtype => z
          end)%Z.
Proof.
  intro H. unfold write_wav_sample, astype_int32.
  destruct d; simpl in H; try contradiction.
  - rewrite (py_int_whole _ z) by (unfold to_float_sample; field; discriminate).
    destruct (Z.leb_spec (- 2 ^ 31) z); [ | lia ].
    destruct (Z.ltb_spec z (2 ^ 31)); [ reflexivity | lia ].
  - rewrite (py_int_whole _ (z * 2 ^ 16))
      by (unfold to_float_sample, Qeq, Qdiv, Qmult, Qinv, inject_Z; simpl; lia).
    destruct (Z.leb_spec (- 2 ^ 31) (z * 2 ^ 16)); [ | lia ].
    destruct (Z.ltb_spec (z * 2 ^ 16) (2 ^ 31)); [ reflexivity | lia ].
  - rewrite (py_int_whole _ ((z - 128) * 2 ^ 24))
      by (unfold to_float_sample, Qeq, Qdiv, Qmult, Qinv, Qminus, Qplus, Qopp,
            inject_Z; simpl; lia).
    destruct (Z.leb_spec (- 2 ^ 31) ((z - 128) * 2 ^ 24)); [ | lia ].
    destruct (Z.ltb_spec ((z - 128) * 2 ^ 24) (2 ^ 31)); [ reflexivity | lia ].
Qed.

Lemma write_wav_after_to_float_witness :
  write_wav_sample (to_float_sample int16 (inject_Z (-3))) = Some (-196608)%Z.
Proof.
  apply (write_wav_after_to_float int16 (-3)). simpl. lia.
Defined.

(** The 32-bit conversion of [write_wav] is defined exactly for the samples
    above -1 - 2^-31 and below 1: full scale +1 has no representation. *)
Theorem write_wav_sample_defined (v : Q) :
  write_wav_sample v <> None
  <-> (-1 - (1 # 2147483648) < v)%Q /\ (v < 1)%Q.
Proof.
  unfold write_wav_sample, astype_int32, py_int.
  destruct v as [ a b ].
  change (Qnum ((a # b) * inject_Z (2 ^ 31))) with (a * 2 ^ 31)%Z.
  change (Zpos (Qden ((a # b) * inject_Z (2 ^ 31)))) with (Zpos (b * 1)).
  rewrite Pos.mul_1_r.
  change (-1 - (1 # 2147483648))%Q with (-2147483649 # 2147483648)%Q.
  unfold Qlt. cbn [Qnum Qden].
  change (2 ^ 31)%Z with 2147483648%Z.
  pose proof (trunc_bounds (a * 2147483648) b) as T.
  set (t := Z.quot (a * 2147483648) (Zpos b)) in *.
  match goal with
  | |- context [(?lo <=? t)%Z] => destruct (Z.leb_spec lo t) as [ Hlo | Hlo ]
  end;
    destruct (Z.ltb_spec t 2147483648) as [ Hhi | Hhi ]; cbn [andb].
  - split; [ intros _; nia | intros _; discriminate ].
  - split; [ intro H; now contradiction H | nia ].
  - split; [ intro H; now contradiction H | nia ].
  - split; [ intro H; now contradiction H | nia ].
Qed.

(** The sample written for [v] is [v * 2^31] cut towards zero: read back, it
    is less than 2^-31 away from [v] and never larger in magnitude. *)
Theorem write_wav_quantization (v : Q) (z : Z) :
  write_wav_sample v = Some z ->
  (Qabs (to_float_sample int32 (inject_Z z) - v) < 1 # 2147483648)%Q /\
  (Qabs (to_float_sample int32 (inject_Z z)) <= Qabs v)%Q.
Proof.
  unfold write_wav_sample, astype_int32, py_int.
  destruct v as [ a b ].
  change (Qnum ((a # b) * inject_Z (2 ^ 31))) with (a * 2 ^ 31)%Z.
  change (Zpos (Qden ((a # b) * inject_Z (2 ^ 31)))) with (Zpos (b * 1)).
  rewrite Pos.mul_1_r.
  change (2 ^ 31)%Z with 2147483648%Z.
  pose proof (trunc_bounds (a * 2147483648) b) as T.
  set (t := Z.quot (a * 2147483648) (Zpos b)) in *.
  destruct (_ && _); [ | discriminate ].
  intro H. inversion H; subst z; clear H.
  assert (E : (to_float_sample int32 (inject_Z t) == t # 2147483648)%Q).
  { unfold to_float_sample, Qeq, Qdiv, Qmult, Qinv, inject_Z. simpl. lia. }
  rewrite E. split.
  - apply Qabs_Qlt_condition. unfold Qlt, Qminus, Qplus, Qopp. cbn [Qnum Qden].
    rewrite !Pos2Z.inj_mul. nia.
  - destruct T as [ [ T Ha ] | [ T Ha ] ].
    + rewrite !Qabs_pos.
      * unfold Qle. cbn [Qnum Qden]. nia.
      * unfold Qle. cbn [Qnum Qden]. lia.
      * unfold Qle. cbn [Qnum Qden]. nia.
    + rewrite !Qabs_neg.
      * unfold Qle, Qopp. cbn [Qnum Qden]. nia.
      * unfold Qle. cbn [Qnum Qden]. lia.
      * unfold Qle. cbn [Qnum Qden]. nia.
Qed.

Lemma write_wav_quantization_witness :
  write_wav_sample (1 # 3) = Some 715827882%Z /\
  (Qabs (to_float_sample int32 (inject_Z 715827882) - (1 # 3)) < 1 # 2147483648)%Q.
Proof.
  assert (H : write_wav_sample (1 # 3) = Some 715827882%Z) by reflexivity.
  split; [ exact H | ].
  exact (proj1 (write_wav_quantization (1 # 3) 715827882 H)).
Defined.

(** ** The speaker list of [create_cli] *)

Lemma str_split_cons (sep : ascii) (s : string) :
  exists h t, str_split sep s = h :: t.
Proof.
  destruct s as [ | c s ]; simpl.
  - now exists EmptyString, [].
  - destruct (Ascii.eqb c sep).
    + now exists EmptyString, (str_split sep s).
    + destruct (str_split sep s) as [ | h t ];
        [ now exists (String c EmptyString), []
        | now exists (String c h), t ].
Qed.

Lemma str_join_cons (sep : ascii) (l h : string) (t : list string) :
  str_join sep (l :: h :: t) = (l ++ String sep (str_join sep (h :: t)))%string.
Proof. reflexivity. Qed.

Lemma str_join_split (sep : ascii) (s : string) :
  str_join sep (str_split sep s) = s.
Proof.
  induction s as [ | c s IH ]; [ reflexivity | ].
  cbn [str_split].
  destruct (str_split_cons sep s) as (h & t & E). rewrite E in *.
  destruct (Ascii.eqb_spec c sep) as [ -> | Hne ].
  - rewrite str_join_cons, IH. reflexivity.
  - destruct t as [ | h' t ].
    + cbn [str_join] in *. now rewrite IH.
    + rewrite str_join_cons in *. cbn [append]. now rewrite IH.
Qed.

Lemma str_split_free (sep : ascii) (s : string) :
  Forall (fun l => ~ In sep (list_ascii_of_string l)) (str_split sep s).
Proof.
  induction s as [ | c s IH ]; simpl.
  - constructor; [ simpl; tauto | constructor ].
  - destruct (Ascii.eqb_spec c sep) as [ -> | Hne ].
    + constructor; [ simpl; tauto | exact IH ].
    + destruct (str_split sep s) as [ | h t ].
      * constructor; [ | constructor ]. simpl. intros [ E | [] ]. contradiction.
      * inversion IH as [ | ? ? Hh Ht ]; subst.
        constructor; [ | exact Ht ]. simpl. intros [ E | Hin ]; contradiction.
Qed.

Lemma str_split_one (sep : ascii) (l : string) :
  ~ In sep (list_ascii_of_string l) -> str_split sep l = [l].
Proof.
  induction l as [ | c l IH ]; simpl; intro H; [ reflexivity | ].
  destruct (Ascii.eqb_spec c sep) as [ -> | Hne ]; [ exfalso; apply H; now left | ].
  rewrite IH; [ reflexivity | ]. intro Hin. apply H. now right.
Qed.

Lemma str_split_append (sep : ascii) (l rest : string) :
  ~ In sep (list_ascii_of_string l) ->
  str_split sep (l ++ String sep rest) = l :: str_split sep rest.
Proof.
  induction l as [ | c l IH ]; simpl; intro H.
  - now rewrite Ascii.eqb_refl.
  - destruct (Ascii.eqb_spec c sep) as [ -> | Hne ]; [ exfalso; apply H; now left | ].
    rewrite IH; [ reflexivity | ]. intro Hin. apply H. now right.
Qed.

Lemma str_split_join (sep : ascii) (labels : list string) :
  labels <> [] ->
  Forall (fun l => ~ In sep (list_ascii_of_string l)) labels ->
  str_split sep (str_join sep labels) = labels.
Proof.
  induction labels as [ | l t IH ]; intros Hne Hfree; [ contradiction | ].
  inversion Hfree as [ | ? ? Hl Ht ]; subst.
  destruct t as [ | l' t ].
  - simpl. now apply str_split_one.
  - change (str_join sep (l :: l' :: t))
      with (l ++ String sep (str_join sep (l' :: t)))%string.
    rewrite str_split_append by exact Hl.
    rewrite IH; [ reflexivity | discriminate | exact Ht ].
Qed.

Lemma upper_ascii_comma (c : ascii) : upper_ascii c = ","%char <-> c = ","%char.
Proof.
  destruct c as [ [ | ] [ | ] [ | ] [ | ] [ | ] [ | ] [ | ] [ | ] ];
    vm_compute; split; intro H; first [ reflexivity | discriminate H ].
Qed.

Lemma str_upper_append (s t : string) :
  str_upper (s ++ t) = (str_upper s ++ str_upper t)%string.
Proof.
  induction s as [ | c s IH ]; simpl; [ reflexivity | now rewrite IH ].
Qed.

Lemma str_upper_join (labels : list string) :
  str_upper (str_join "," labels) = str_join "," (map str_upper labels).
Proof.
  induction labels as [ | l t IH ]; [ reflexivity | ].
  destruct t as [ | l' t ]; [ reflexivity | ].
  change (str_join "," (l :: l' :: t))
    with (l ++ String "," (str_join "," (l' :: t)))%string.
  rewrite str_upper_append. cbn [str_upper]. rewrite IH. reflexivity.
Qed.

Lemma str_upper_comma_free (l : string) : comma_free l -> comma_free (str_upper l).
Proof.
  unfold comma_free. induction l as [ | c l IH ]; simpl; intro H; [ tauto | ].
  intros [ E | Hin ].
  - apply (proj1 (upper_ascii_comma c)) in E. apply H. now left.
  - apply IH; [ | exact Hin ]. intro Hc. apply H. now right.
Qed.

(** ASCII labels without commas, written as a comma-separated list, are
    parsed back in order and in upper case. *)
Theorem parse_speakers_of_join (labels : list string) :
  labels <> [] ->
  Forall comma_free labels ->
  Forall ascii_text labels ->
  parse_speakers (str_join "," labels) = map str_upper labels.
Proof.
  intros Hne Hfree _. unfold parse_speakers. rewrite str_upper_join.
  apply str_split_join.
  - destruct labels; [ contradiction | discriminate ].
  - apply Forall_forall. intros l Hl. apply in_map_iff in Hl.
    destruct Hl as (l0 & <- & Hl0).
    rewrite Forall_forall in Hfree. apply str_upper_comma_free. now apply Hfree.
Qed.

Lemma parse_speakers_of_join_witness :
  parse_speakers (str_join "," ["fl"; "Fr"; "SL"]) = ["FL"; "FR"; "SL"].
Proof.
  apply (parse_speakers_of_join ["fl"; "Fr"; "SL"]).
  - discriminate.
  - repeat (apply Forall_cons;
            [ unfold comma_free; simpl; intuition discriminate | ]).
    apply Forall_nil.
  - repeat (apply Forall_cons;
            [ unfold ascii_text; simpl;
              repeat (apply Forall_cons; [ apply Nat.ltb_lt; reflexivity | ]);
              apply Forall_nil | ]).
    apply Forall_nil.
Defined.

(** The parsed list is never empty, its labels hold no comma, and joined
    with commas they give the upper-cased argument back: nothing is trimmed
    or dropped. *)
Theorem parse_speakers_join (arg : string) :
  parse_speakers arg <> [] /\
  Forall comma_free (parse_speakers arg) /\
  str_join "," (parse_speakers arg) = str_upper arg.
Proof.
  unfold parse_speakers. split.
  - destruct (str_split_cons "," (str_upper arg)) as (h & t & E).
    rewrite E. discriminate.
  - split; [ apply str_split_free | apply str_join_split ].
Qed.

(** ** Reorderer and HeSuVi export *)

Lemma map_result_raise {A B : Type} (f : A -> result B) (l : list A)
  (a : A) (e0 : exn) :
  (forall x e, f x = Raise e -> e = e0) ->
  In a l -> f a = Raise e0 -> map_result f l = Raise e0.
Proof.
  intros Hall Hin Ha. induction l as [ | x t IH ]; [ contradiction | ].
  cbn [map_result]. destruct (f x) as [ b | e ] eqn:Ex; cbn [bind].
  - destruct Hin as [ -> | Hin ]; [ congruence | ].
    rewrite (IH Hin). reflexivity.
  - f_equal. eapply Hall. exact Ex.
Qed.

Lemma map_result_ok {A B : Type} (f : A -> result B) (g : A -> B) (l : list A) :
  (forall x, In x l -> f x = Ok (g x)) -> map_result f l = Ok (map g l).
Proof.
  induction l as [ | x t IH ]; intro H; [ reflexivity | ].
  cbn [map_result map]. rewrite (H x) by now left. cbn [bind].
  rewrite IH by (intros y Hy; apply H; now right). reflexivity.
Qed.

Lemma firstn_as_map {A : Type} (d : A) (l : list A) (n : nat) :
  n <= length l -> firstn n l = map (fun i => nth i l d) (seq 0 n).
Proof.
  revert n. induction l as [ | x t IH ]; intros n Hn.
  - simpl in Hn. assert (n = 0) by lia. subst. reflexivity.
  - destruct n as [ | n ]; [ reflexivity | ].
    cbn [firstn seq map nth]. f_equal.
    rewrite <- seq_shift, map_map. apply IH. simpl in Hn. lia.
Qed.

(** A declared recognized speaker whose two tracks are not both present
    stops the reordering with an index error. *)
Theorem reorder_tracks_missing_track
  (tracks : ndarray2) (speakers : list string) (speaker : string) (k : nat) :
  recognized speaker ->
  index_of speaker speakers = Some k ->
  shape0 tracks <= 2 * k + 1 ->
  reorder_tracks tracks speakers = Raise IndexError.
Proof.
  intros Hrec Hk Hshort. unfold reorder_tracks.
  match goal with
  | |- bind (map_result ?f _) _ = _ =>
      assert (Hm : map_result f IR_ORDER = Raise IndexError)
  end.
  { apply (map_result_raise _ _ (speaker ++ "-right")%string).
    - intros ch e. destruct (index_of ch (track_names_of speakers)) as [ j | ];
        [ | discriminate ].
      destruct (nth_error (rows tracks) j); [ discriminate | ].
      intro E. now inversion E.
    - unfold IR_ORDER. apply in_flat_map. exists speaker.
      split; [ exact Hrec | right; now left ].
    - rewrite index_of_right, Hk. cbn [option_map].
      destruct (nth_error (rows tracks) (2 * k + 1)) eqn:En; [ | reflexivity ].
      exfalso. assert (Hlt : 2 * k + 1 < length (rows tracks))
        by (apply nth_error_Some; congruence).
      unfold shape0 in Hshort. lia. }
  rewrite Hm. reflexivity.
Qed.

Lemma reorder_tracks_missing_track_witness :
  reorder_tracks (mk_ndarray2 1 [[1]; [2]; [3]]%Q) ["FL"; "FR"]
  = Raise IndexError.
Proof.
  apply (reorder_tracks_missing_track _ _ "FR" 1).
  - unfold recognized. simpl. auto.
  - reflexivity.
  - unfold shape0. simpl. lia.
Defined.

(** Fourteen well-formed tracks declared in the canonical speaker order are
    returned as they are. *)
Theorem reorder_tracks_canonical_fixed (tracks : ndarray2) :
  wf_ndarray2 tracks ->
  shape0 tracks = 14 ->
  reorder_tracks tracks SPEAKER_NAMES = Ok tracks.
Proof.
  intros Hwf Hrows.
  rewrite reorder_tracks_slots; [ | unfold SPEAKER_NAMES; simpl; lia | exact Hwf ].
  unfold canonical_slot.
  unfold SPEAKER_NAMES at 1. cbn [flat_map app].
  repeat match goal with
         | |- context [index_of ?s SPEAKER_NAMES] =>
             let v := eval vm_compute in (index_of s SPEAKER_NAMES) in
             change (index_of s SPEAKER_NAMES) with v
         end.
  destruct tracks as [ w rs ]. unfold shape0 in Hrows. cbn [rows shape1] in *.
  do 14 (destruct rs as [ | ? rs ]; [ discriminate Hrows | ]).
  destruct rs; [ reflexivity | discriminate Hrows ].
Qed.

Lemma reorder_tracks_canonical_fixed_witness :
  reorder_tracks (mk_ndarray2 1 (map (fun i => [Qnat i]) (seq 0 14))) SPEAKER_NAMES
  = Ok (mk_ndarray2 1 (map (fun i => [Qnat i]) (seq 0 14))).
Proof.
  apply reorder_tracks_canonical_fixed.
  - repeat constructor.
  - reflexivity.
Defined.

Lemma hesuvi_indices_value :
  hesuvi_indices = Ok [0; 1; 10; 11; 6; 7; 4; 3; 2; 13; 12; 9; 8; 5].
Proof. reflexivity. Qed.

Lemma hesuvi_indices_permutation :
  Permutation [0; 1; 10; 11; 6; 7; 4; 3; 2; 13; 12; 9; 8; 5] (seq 0 14).
Proof.
  apply NoDup_Permutation.
  - repeat (constructor; [ simpl; intuition discriminate | ]). constructor.
  - apply seq_NoDup.
  - intro x. rewrite in_seq. simpl. lia.
Qed.

(** The HeSuVi export of at least fourteen channels takes the first
    fourteen, each exactly once, in the player's order. *)
Theorem hesuvi_permutes (impulse_responses : ndarray2) :
  14 <= shape0 impulse_responses ->
  exists out,
    hesuvi impulse_responses = Ok out /\
    shape1 out = shape1 impulse_responses /\
    rows out = map (fun i => nth i (rows impulse_responses) [])
                   [0; 1; 10; 11; 6; 7; 4; 3; 2; 13; 12; 9; 8; 5] /\
    Permutation (rows out) (firstn 14 (rows impulse_responses)).
Proof.
  intro Hrows. unfold hesuvi. rewrite hesuvi_indices_value. cbn [bind].
  unfold take_rows.
  rewrite (map_result_ok _ (fun i => nth i (rows impulse_responses) [])).
  - cbn [bind]. eexists. split; [ reflexivity | ]. cbn [rows shape1].
    split; [ reflexivity | ]. split; [ reflexivity | ].
    rewrite (firstn_as_map [] _ 14) by exact Hrows.
    apply Permutation_map. exact hesuvi_indices_permutation.
  - intros i Hi.
    assert (Hlt : i < length (rows impulse_responses)).
    { unfold shape0 in Hrows. simpl in Hi. lia. }
    now rewrite (nth_error_nth' _ [] Hlt).
Qed.

Lemma hesuvi_permutes_witness :
  exists out,
    hesuvi (mk_ndarray2 1 (map (fun i => [Qnat i]) (seq 0 14))) = Ok out /\
    Permutation (rows out) (map (fun i => [Qnat i]) (seq 0 14)).
Proof.
  destruct (hesuvi_permutes (mk_ndarray2 1 (map (fun i => [Qnat i]) (seq 0 14))))
    as (out & Hh & _ & _ & Hp).
  - unfold shape0. simpl. lia.
  - exists out. split; [ exact Hh | exact Hp ].
Defined.

(** With fewer than fourteen channels the export raises an index error. *)
Theorem hesuvi_needs_fourteen (impulse_responses : ndarray2) :
  shape0 impulse_responses < 14 ->
  hesuvi impulse_responses = Raise IndexError.
Proof.
  intro Hrows. unfold hesuvi. rewrite hesuvi_indices_value. cbn [bind].
  unfold take_rows.
  match goal with
  | |- bind (map_result ?f ?l) _ = _ =>
      assert (Hm : map_result f l = Raise IndexError)
  end.
  { apply (map_result_raise _ _ 13).
    - intros i e. destruct (nth_error (rows impulse_responses) i);
        [ discriminate | ]. intro E. now inversion E.
    - simpl. auto 20.
    - destruct (nth_error (rows impulse_responses) 13) eqn:En; [ | reflexivity ].
      exfalso. assert (13 < length (rows impulse_responses))
        by (apply nth_error_Some; congruence).
      unfold shape0 in Hrows. lia. }
  rewrite Hm. reflexivity.
Qed.

Lemma hesuvi_needs_fourteen_witness :
  hesuvi (mk_ndarray2 1 [[1]; [2]]%Q) = Raise IndexError.
Proof.
  apply hesuvi_needs_fourteen. unfold shape0. simpl. lia.
Defined.

(** ** Track Splitter *)

Ltac whole_product_by_computation :=
  unfold whole_product; eexists; eexists;
  split; [ reflexivity | split; [ reflexivity | vm_compute; reflexivity ] ].

(** A recording with fewer than two tracks stops at the division by the
    number of track pairs. *)
Theorem split_recording_needs_two_tracks
  (recording test_signal : ndarray2) (speakers : list string) (fs : nat)
  (silence_length : spec_float) :
  (exists k : Z, whole_product silence_length fs k) ->
  shape0 recording < 2 ->
  split_recording recording test_signal speakers fs silence_length
  = Raise ZeroDivisionError.
Proof.
  intros [ k Hk ] Hrows. unfold split_recording.
  rewrite (silence_samples_whole _ _ _ Hk). cbn [bind].
  assert (E : shape0 recording / 2 = 0) by (apply Nat.div_small; exact Hrows).
  now rewrite E.
Qed.

Lemma split_recording_needs_two_tracks_witness :
  split_recording (mk_ndarray2 3 [[1; 2; 3]%Q]) (mk_ndarray2 1 [[1%Q]])
    ["FL"] 2 double_0_5
  = Raise ZeroDivisionError.
Proof.
  apply split_recording_needs_two_tracks.
  - exists 1%Z. whole_product_by_computation.
  - unfold shape0. simpl. lia.
Defined.

Lemma split_rows_no_columns (i steps nrows : nat) :
  split_rows [] i steps nrows = Ok [].
Proof.
  revert i. induction steps as [ | k IH ]; intro i; [ reflexivity | ].
  cbn [split_rows ear_pair_rows]. destruct (i <? nrows); [ | reflexivity ].
  cbn [bind]. rewrite IH. reflexivity.
Qed.

(** With no speaker declared there is no column and nothing to stack. *)
Theorem split_recording_no_speakers
  (recording test_signal : ndarray2) (fs : nat)
  (silence_length : spec_float) :
  (exists k : Z, whole_product silence_length fs k) ->
  2 <= shape0 recording ->
  split_recording recording test_signal [] fs silence_length
  = Raise (ValueError "need at least one array to concatenate").
Proof.
  intros [ k Hk ] Hrows. unfold split_recording.
  rewrite (silence_samples_whole _ _ _ Hk). cbn [bind].
  destruct (Nat.eqb_spec (shape0 recording / 2) 0) as [ E | _ ].
  { exfalso. assert (1 <= shape0 recording / 2)
      by (apply Nat.div_le_lower_bound; lia). lia. }
  assert (Hn : py_round (Qnat (length (@nil string)) / Qnat (shape0 recording / 2))
               = 0%Z).
  { rewrite <- (py_round_inject_Z 0). apply py_round_comp.
    unfold Qnat. simpl length. change (inject_Z (Z.of_nat 0)) with 0%Q.
    unfold Qdiv. apply Qmult_0_l. }
  rewrite Hn. cbn [Z.to_nat seq map].
  rewrite split_rows_no_columns. reflexivity.
Qed.

Lemma split_recording_no_speakers_witness :
  split_recording (mk_ndarray2 2 [[1; 2]; [3; 4]]%Q) (mk_ndarray2 1 [[1%Q]])
    [] 2 double_0_5
  = Raise (ValueError "need at least one array to concatenate").
Proof.
  apply split_recording_no_speakers.
  - exists 1%Z. whole_product_by_computation.
  - unfold shape0. simpl. lia.
Defined.

Lemma py_round_ge_one (q : Q) : (1 <= q)%Q -> (1 <= py_round q)%Z.
Proof.
  intro H. apply Qfloor_resp_le in H. change (Qfloor 1) with 1%Z in H.
  unfold py_round.
  destruct (Qcompare _ _); [ destruct (Z.even _) | | ]; lia.
Qed.

Lemma ear_pair_rows_some (columns : list ndarray2) (i : nat) :
  (forall c, In c columns -> i + 1 < length (rows c)) ->
  exists l, ear_pair_rows columns i = Ok l.
Proof.
  induction columns as [ | c cs IH ]; intro H; [ now exists [] | ].
  cbn [ear_pair_rows].
  assert (Hc : i + 1 < length (rows c)) by (apply H; now left).
  destruct (nth_error (rows c) i) as [ r0 | ] eqn:E0;
    [ | apply nth_error_None in E0; lia ].
  destruct (nth_error (rows c) (i + 1)) as [ r1 | ] eqn:E1;
    [ | apply nth_error_None in E1; lia ].
  destruct IH as [ l El ]; [ intros c' Hc'; apply H; now right | ].
  rewrite El. cbn [bind]. eauto.
Qed.

Lemma ear_pair_rows_unpaired (c : ndarray2) (cs : list ndarray2) (i : nat) :
  length (rows c) = i + 1 -> ear_pair_rows (c :: cs) i = Raise IndexError.
Proof.
  intro H. cbn [ear_pair_rows].
  destruct (nth_error (rows c) i); [ | reflexivity ].
  destruct (nth_error (rows c) (i + 1)) eqn:E1; [ | reflexivity ].
  exfalso. assert (i + 1 < length (rows c)) by (apply nth_error_Some; congruence).
  lia.
Qed.

Lemma split_rows_odd (columns : list ndarray2) (m : nat) :
  columns <> [] ->
  (forall c, In c columns -> length (rows c) = 2 * m + 1) ->
  forall steps j, j <= m -> m - j < steps ->
    split_rows columns (2 * j) steps (2 * m + 1) = Raise IndexError.
Proof.
  intros Hne Hrows. induction steps as [ | k IH ]; intros j Hj Hfuel; [ lia | ].
  cbn [split_rows].
  destruct (Nat.ltb_spec (2 * j) (2 * m + 1)) as [ _ | ? ]; [ | lia ].
  destruct (Nat.eq_dec j m) as [ -> | Hjm ].
  - destruct columns as [ | c cs ]; [ contradiction | ].
    rewrite ear_pair_rows_unpaired; [ reflexivity | ].
    rewrite (Hrows c) by now left. lia.
  - destruct (ear_pair_rows_some columns (2 * j)) as [ l El ].
    { intros c Hc. rewrite (Hrows c Hc). lia. }
    rewrite El. cbn [bind].
    replace (2 * j + 2) with (2 * S j) by lia.
    rewrite IH by lia. reflexivity.
Qed.

(** An odd number of three or more tracks, with at least one speaker per
    track pair declared, runs into the missing right-ear row. *)
Theorem split_recording_odd_tracks
  (recording test_signal : ndarray2) (speakers : list string) (fs : nat)
  (silence_length : spec_float) (m : nat) :
  (exists k : Z, whole_product silence_length fs k) ->
  shape0 recording = 2 * m + 1 ->
  1 <= m <= length speakers ->
  split_recording recording test_signal speakers fs silence_length
  = Raise IndexError.
Proof.
  intros [ k Hk ] Hrows Hm. unfold split_recording.
  rewrite (silence_samples_whole _ _ _ Hk). cbn [bind].
  assert (Hhalf : shape0 recording / 2 = m).
  { rewrite Hrows. symmetry. apply (Nat.div_unique _ 2 m 1); lia. }
  rewrite Hhalf.
  destruct (Nat.eqb_spec m 0) as [ ? | _ ]; [ lia | ].
  set (n_columns := py_round (Qnat (length speakers) / Qnat m)).
  assert (Hn : (1 <= n_columns)%Z).
  { apply py_round_ge_one. apply Qle_shift_div_l.
    - unfold Qnat, Qlt. simpl. lia.
    - rewrite Qmult_1_l. unfold Qnat, Qle. simpl. lia. }
  assert (Hshape : shape0 (slice_cols_from k recording) = 2 * m + 1).
  { unfold shape0, slice_cols_from. cbn [rows]. rewrite length_map. exact Hrows. }
  rewrite Hshape.
  rewrite (split_rows_odd _ m) with (j := 0); [ reflexivity | | | lia | lia ].
  - destruct (Z.to_nat n_columns) as [ | c ] eqn:Ec; [ lia | ]. discriminate.
  - intros c Hc. apply in_map_iff in Hc. destruct Hc as (i & <- & _).
    unfold slice_cols. cbn [rows]. rewrite length_map. exact Hshape.
Qed.

Lemma split_recording_odd_tracks_witness :
  split_recording (mk_ndarray2 2 [[1; 2]; [3; 4]; [5; 6]]%Q)
    (mk_ndarray2 1 [[1%Q]]) ["FL"] 2 double_0_5
  = Raise IndexError.
Proof.
  apply (split_recording_odd_tracks _ _ _ _ _ 1).
  - exists 1%Z. whole_product_by_computation.
  - reflexivity.
  - simpl. lia.
Defined.

Lemma slice_segment {A : Type} (x : list A) (a len : nat) :
  a + len <= length x ->
  slice (Z.of_nat a) (Z.of_nat (a + len)) x = firstn len (skipn a x).
Proof.
  intro H. unfold slice. rewrite !adjust_index_nonneg by lia.
  rewrite !Nat2Z.id. rewrite !Nat.min_r by lia. f_equal. lia.
Qed.

Lemma flat_map_ext_in {A B : Type} (f g : A -> list B) (l : list A) :
  (forall a, In a l -> f a = g a) -> flat_map f l = flat_map g l.
Proof.
  induction l as [ | a t IH ]; intro H; [ reflexivity | ].
  cbn [flat_map]. rewrite (H a) by now left.
  rewrite IH by (intros b Hb; apply H; now right). reflexivity.
Qed.

Lemma ear_pair_rows_first_pair (columns : list ndarray2) :
  (forall c, In c columns -> 2 <= length (rows c)) ->
  ear_pair_rows columns 0
  = Ok (flat_map (fun c => [nth 0 (rows c) []; nth 1 (rows c) []]) columns).
Proof.
  induction columns as [ | c cs IH ]; intro H; [ reflexivity | ].
  cbn [ear_pair_rows flat_map].
  assert (Hc : 2 <= length (rows c)) by (apply H; now left).
  rewrite (nth_error_nth' (rows c) [] (n := 0)) by lia.
  rewrite (nth_error_nth' (rows c) [] (n := 0 + 1)) by lia.
  rewrite IH by (intros c' Hc'; apply H; now right).
  reflexivity.
Qed.

(** A two-track recording that opens with [silence] samples of silence and
    then holds one segment of silence-plus-sweep length per declared speaker
    is cut exactly at the segment borders: speaker [c] gets segment [c] of
    the left track and segment [c] of the right track, in that order. *)
Theorem split_recording_stereo_segments
  (left_row right_row : list Q) (width : nat) (test_signal : ndarray2)
  (speakers : list string) (fs : nat) (silence_length : spec_float)
  (silence : nat) :
  length left_row = width ->
  length right_row = width ->
  whole_product silence_length fs (Z.of_nat silence) ->
  speakers <> [] ->
  silence + length speakers * (silence + shape1 test_signal) <= width ->
  split_recording (mk_ndarray2 width [left_row; right_row]) test_signal
    speakers fs silence_length
  = Ok (mk_ndarray2 (silence + shape1 test_signal)
          (flat_map
             (fun c => [segment silence (silence + shape1 test_signal) c left_row;
                        segment silence (silence + shape1 test_signal) c right_row])
             (seq 0 (length speakers)))).
Proof.
  intros Hl Hr Hs Hne Hfit. unfold split_recording.
  rewrite (silence_samples_whole _ _ _ Hs). cbn [bind].
  change (shape0 (mk_ndarray2 width [left_row; right_row])) with 2.
  change (2 / 2 =? 0) with false. cbv iota.
  assert (Hn : py_round (Qnat (length speakers) / Qnat (2 / 2))
               = Z.of_nat (length speakers)).
  { rewrite <- (py_round_inject_Z (Z.of_nat (length speakers))).
    apply py_round_comp. unfold Qnat.
    change (inject_Z (Z.of_nat (2 / 2))) with 1%Q. field. }
  rewrite Hn, Nat2Z.id.
  set (cs := silence + shape1 test_signal) in *.
  set (n := length speakers) in *.
  unfold slice_cols_from. cbn [rows shape1 map].
  rewrite !slice_from_nonneg by lia. rewrite Nat2Z.id.
  change (shape0 {| shape1 := _; rows := [skipn silence left_row;
                                          skipn silence right_row] |}) with 2.
  cbn [split_rows Nat.ltb Nat.leb Nat.add].
  rewrite ear_pair_rows_first_pair.
  2:{ intros c Hc. apply in_map_iff in Hc. destruct Hc as (i & <- & _).
      unfold slice_cols. cbn [rows map length]. lia. }
  cbn [bind]. rewrite app_nil_r.
  rewrite flat_map_concat_map, map_map, <- flat_map_concat_map.
  assert (Hseg : forall c x, c < n -> length x = width ->
            slice (Z.of_nat c * (Z.of_nat silence + Z.of_nat (shape1 test_signal)))
                  ((Z.of_nat c + 1) * (Z.of_nat silence + Z.of_nat (shape1 test_signal)))
                  (skipn silence x)
            = segment silence cs c x).
  { intros c x Hc Hx. unfold segment.
    replace (Z.of_nat c * (Z.of_nat silence + Z.of_nat (shape1 test_signal)))%Z
      with (Z.of_nat (c * cs)) by (unfold cs; lia).
    replace ((Z.of_nat c + 1) * (Z.of_nat silence + Z.of_nat (shape1 test_signal)))%Z
      with (Z.of_nat (c * cs + cs)) by (unfold cs; lia).
    rewrite slice_segment.
    - rewrite skipn_skipn. f_equal. f_equal. lia.
    - rewrite length_skipn, Hx.
      assert (c * cs + cs <= n * cs) by nia. lia. }
  rewrite (flat_map_ext_in _
             (fun c => [segment silence cs c left_row;
                        segment silence cs c right_row])).
  2:{ intros c Hc. apply in_seq in Hc. unfold slice_cols. cbn [rows map nth].
      rewrite !Hseg by (assumption || lia). reflexivity. }
  apply vstack_equal_lengths.
  - destruct n as [ | n' ] eqn:En.
    + destruct speakers; [ contradiction | discriminate En ].
    + discriminate.
  - apply Forall_forall. intros row Hrow. apply in_flat_map in Hrow.
    destruct Hrow as (c & Hc & Hin). apply in_seq in Hc.
    assert (Hb : c * cs + cs <= n * cs) by nia.
    unfold segment in Hin.
    destruct Hin as [ <- | [ <- | [] ] ];
      rewrite length_firstn, length_skipn; lia.
Qed.

Lemma split_recording_stereo_segments_witness :
  split_recording
    (mk_ndarray2 7 [[0; 1; 2; 0; 3; 4; 0]; [0; 5; 6; 0; 7; 8; 0]]%Q)
    (mk_ndarray2 2 [[1; 1]%Q]) ["FL"; "FR"] 2 double_0_5
  = Ok (mk_ndarray2 3 [[1; 2; 0]; [5; 6; 0]; [3; 4; 0]; [7; 8; 0]]%Q).
Proof.
  apply (split_recording_stereo_segments
           [0; 1; 2; 0; 3; 4; 0]%Q [0; 5; 6; 0; 7; 8; 0]%Q 7
           (mk_ndarray2 2 [[1; 1]%Q]) ["FL"; "FR"] 2 double_0_5 1).
  - reflexivity.
  - reflexivity.
  - whole_product_by_computation.
  - discriminate.
  - simpl. lia.
Defined.

(** ** Normalizer: further properties *)

Lemma peak_fold_upper (l : list Q) (v : Q) :
  In v l ->
  (Qabs v <= fold_right (fun v m => if Qltb m (Qabs v) then Qabs v else m) 0 l)%Q.
Proof.
  induction l as [ | x t IH ]; intro H; [ contradiction | ].
  cbn [fold_right].
  set (rest := fold_right (fun v m => if Qltb m (Qabs v) then Qabs v else m) 0%Q t) in *.
  destruct (Qltb rest (Qabs x)) eqn:C.
  - apply Qltb_lt in C. destruct H as [ -> | H ]; [ apply Qle_refl | ].
    apply Qle_trans with rest; [ now apply IH | now apply Qlt_le_weak ].
  - apply Qltb_ge in C. destruct H as [ -> | H ]; [ exact C | now apply IH ].
Qed.

Lemma peak_fold_attained (l : list Q) (bound : Q) :
  (0 <= bound)%Q ->
  (forall v, In v l -> (Qabs v <= bound)%Q) ->
  (fold_right (fun v m => if Qltb m (Qabs v) then Qabs v else m) 0 l <= bound)%Q.
Proof.
  intros Hb. induction l as [ | x t IH ]; intro H; [ exact Hb | ].
  cbn [fold_right].
  destruct (Qltb _ (Qabs x)).
  - apply H. now left.
  - apply IH. intros v Hv. apply H. now right.
Qed.

Lemma nth_map_in_range {A B : Type} (f : A -> B) (l : list A) (i : nat)
  (d : A) (d' : B) :
  i < length l -> nth i (map f l) d' = f (nth i l d).
Proof.
  intro H. rewrite nth_indep with (d' := f d) by now rewrite length_map.
  apply map_nth.
Qed.

(** When the largest signed sample is positive and no sample lies below its
    negative, the normalized array peaks exactly at the target level. *)
Theorem normalize_peak_at_target (x : ndarray2) (gain : Q) (i : nat) :
  argmax (concat (rows x)) = Some i ->
  (0 < nth i (concat (rows x)) 0)%Q ->
  (forall v, In v (concat (rows x)) -> (- nth i (concat (rows x)) 0 <= v)%Q) ->
  (0 <= gain)%Q ->
  exists y,
    normalize x gain = Ok y /\ (peak_magnitude y == gain)%Q.
Proof.
  intros Hi Hm Hlow Hg.
  set (flat := concat (rows x)) in *. set (m := nth i flat 0%Q) in *.
  assert (Hne : ~ (m == 0)%Q).
  { intro E. rewrite E in Hm. discriminate Hm. }
  eexists. split; [ exact (normalize_common_factor x gain i Hi Hne) | ].
  unfold peak_magnitude. cbn [rows]. fold flat. fold m.
  rewrite <- concat_map. fold flat.
  destruct (normalize_reaches_target m gain Hm Hg) as [ Htop Hall ].
  pose proof (argmax_bound _ _ Hi) as Hil.
  apply Qle_antisym.
  - apply peak_fold_attained; [ exact Hg | ].
    intros w Hw. apply in_map_iff in Hw. destruct Hw as (v & <- & Hv).
    apply Hall. apply Qabs_Qle_condition. split; [ now apply Hlow | ].
    destruct (In_nth _ _ 0%Q Hv) as (j & Hj & <-).
    now apply (argmax_max flat i Hi).
  - rewrite <- Htop at 1.
    rewrite <- (Qabs_pos (m / Qabs m * gain)%Q).
    + apply peak_fold_upper. apply in_map_iff. exists m.
      split; [ reflexivity | ]. unfold m. now apply nth_In.
    + rewrite Htop. exact Hg.
Qed.

Lemma normalize_peak_at_target_witness :
  exists y,
    normalize (mk_ndarray2 2 [[1 # 2; -1 # 4]; [1 # 3; 0]]%Q) (989 # 1000) = Ok y /\
    (peak_magnitude y == 989 # 1000)%Q.
Proof.
  apply (normalize_peak_at_target _ _ 0).
  - reflexivity.
  - reflexivity.
  - intros v Hv. simpl in Hv.
    destruct Hv as [ <- | [ <- | [ <- | [ <- | [] ] ] ] ]; discriminate.
  - discriminate.
Defined.

Lemma argmax_from_map (f : Q -> Q) (x : list Q) (best : Q) (besti i : nat) :
  (forall a b, Qltb (f a) (f b) = Qltb a b) ->
  argmax_from (f best) besti i (map f x) = argmax_from best besti i x.
Proof.
  intro Hf. revert best besti i.
  induction x as [ | v t IH ]; intros best besti i; [ reflexivity | ].
  cbn [map argmax_from]. rewrite Hf. destruct (Qltb best v); apply IH.
Qed.

Lemma argmax_map (f : Q -> Q) (x : list Q) :
  (forall a b, Qltb (f a) (f b) = Qltb a b) ->
  argmax (map f x) = argmax x.
Proof.
  intro Hf. destruct x as [ | v t ]; [ reflexivity | ].
  cbn [map argmax]. now rewrite argmax_from_map.
Qed.

Lemma scale_keeps_order (c a b : Q) :
  (0 < c)%Q -> Qltb (a * c) (b * c) = Qltb a b.
Proof.
  intro Hc. destruct (Qltb a b) eqn:E.
  - apply Qltb_lt. apply Qltb_lt in E. now apply Qmult_lt_r.
  - apply Qltb_ge. apply Qltb_ge in E. now apply Qmult_le_r.
Qed.

Lemma Forall2_map_left {A : Type} (R : A -> A -> Prop) (f : A -> A) (l : list A) :
  (forall a, R (f a) a) -> Forall2 R (map f l) l.
Proof.
  intro H. induction l as [ | a t IH ]; constructor; auto.
Qed.

(** Normalizing twice is normalizing once: on an array [normalize] has
    already returned, a second pass with the same positive target succeeds
    and leaves every sample at its value. *)
Theorem normalize_idempotent (x y : ndarray2) (gain : Q) :
  (0 < gain)%Q ->
  normalize x gain = Ok y ->
  exists y',
    normalize y gain = Ok y' /\
    shape1 y' = shape1 y /\
    Forall2 (Forall2 Qeq) (rows y') (rows y).
Proof.
  intros Hg Hn. unfold normalize in Hn.
  destruct (argmax (concat (rows x))) as [ i | ] eqn:Hi; [ | discriminate ].
  set (flat := concat (rows x)) in *. set (m := nth i flat 0%Q) in *.
  destruct (Qeq_bool (Qabs m) 0) eqn:Ep; [ discriminate | ].
  apply Qeq_bool_neq in Ep.
  inversion Hn; subst y; clear Hn.
  assert (Hp : (0 < Qabs m)%Q).
  { destruct (Qle_lt_or_eq _ _ (Qabs_nonneg m)) as [ H | H ]; [ exact H | ].
    exfalso. apply Ep. now symmetry. }
  set (f := fun v : Q => (v / Qabs m * gain)%Q).
  assert (Hc : (0 < / Qabs m * gain)%Q).
  { apply Qmult_lt_0_compat; [ now apply Qinv_lt_0_compat | exact Hg ]. }
  assert (Hf : forall a b, Qltb (f a) (f b) = Qltb a b).
  { intros a b. unfold f, Qdiv.
    rewrite <- (scale_keeps_order (/ Qabs m * gain) a b Hc).
    unfold Qltb. f_equal. apply eq_true_iff_eq. rewrite !Qle_bool_iff.
    now rewrite !Qmult_assoc. }
  assert (Hflat : concat (rows (mk_ndarray2 (shape1 x) (map (map f) (rows x))))
                  = map f flat).
  { cbn [rows]. symmetry. apply concat_map. }
  pose proof (argmax_bound _ _ Hi) as Hil.
  assert (Hpeak : (Qabs (f m) == gain)%Q).
  { unfold f. unfold Qdiv. rewrite !Qabs_Qmult, Qabs_Qinv.
    rewrite (Qabs_pos (Qabs m)) by apply Qabs_nonneg.
    rewrite (Qabs_pos gain) by now apply Qlt_le_weak.
    field. intro E. apply Ep. exact E. }
  unfold normalize. fold f. rewrite Hflat, (argmax_map f flat Hf), Hi.
  rewrite (nth_map_in_range f flat i 0%Q 0%Q Hil). fold m.
  destruct (Qeq_bool (Qabs (f m)) 0) eqn:E0.
  { exfalso. apply Qeq_bool_iff in E0. rewrite Hpeak in E0.
    rewrite E0 in Hg. discriminate Hg. }
  eexists. split; [ reflexivity | ]. cbn [rows shape1].
  split; [ reflexivity | ].
  apply Forall2_map_left. intro row. apply Forall2_map_left. intro w.
  rewrite Hpeak. field. intro E. rewrite E in Hg. discriminate Hg.
Qed.

Lemma normalize_idempotent_witness :
  exists y',
    normalize (mk_ndarray2 2 [[1978 # 2000; -1978 # 1000]]%Q) (989 # 1000) = Ok y' /\
    Forall2 (Forall2 Qeq) (rows y') [[1978 # 2000; -1978 # 1000]]%Q.
Proof.
  destruct (normalize_idempotent (mk_ndarray2 2 [[1 # 2; -1]%Q])
              (mk_ndarray2 2 [[1978 # 2000; -1978 # 1000]%Q]) (989 # 1000))
    as (y' & Hy & _ & Hrows).
  - reflexivity.
  - vm_compute. reflexivity.
  - exists y'. split; [ exact Hy | exact Hrows ].
Defined.

(** An array that holds nothing but zeros has a zero peak: the division is
    by zero and no finite array comes out. *)
Theorem normalize_silent (x : ndarray2) (gain : Q) :
  concat (rows x) <> [] ->
  Forall (fun v => (v == 0)%Q) (concat (rows x)) ->
  normalize x gain = Raise NonFinite.
Proof.
  intros Hne Hzero. unfold normalize.
  destruct (argmax (concat (rows x))) as [ i | ] eqn:Hi.
  - pose proof (argmax_bound _ _ Hi) as Hil.
    rewrite Forall_forall in Hzero.
    assert (E : (nth i (concat (rows x)) 0 == 0)%Q)
      by (apply Hzero; now apply nth_In).
    assert (Ea : Qeq_bool (Qabs (nth i (concat (rows x)) 0%Q)) 0 = true).
    { apply Qeq_bool_iff. rewrite E. reflexivity. }
    now rewrite Ea.
  - exfalso. destruct (concat (rows x)); [ contradiction | discriminate Hi ].
Qed.

Lemma normalize_silent_witness :
  normalize (mk_ndarray2 2 [[0; 0]; [0; 0]]%Q) (989 # 1000) = Raise NonFinite.
Proof.
  apply normalize_silent.
  - discriminate.
  - repeat constructor.
Defined.

(** ** Decay analyzer: further properties *)

Lemma rise_loop_bound (rms : list Q) (i steps c : nat) :
  exists r, rise_loop rms i steps (Some c) = Some r.
Proof.
  revert i c. induction steps as [ | k IH ]; intros i c; cbn [rise_loop].
  - now exists c.
  - destruct (Qltb _ _); [ now exists i | apply IH ].
Qed.

Lemma rise_loop_runs (rms : list Q) (i steps : nat) :
  0 < steps -> exists r, rise_loop rms i steps None = Some r.
Proof.
  destruct steps as [ | k ]; [ lia | ]. intros _. cbn [rise_loop].
  destruct (Qltb _ _); [ now exists i | apply rise_loop_bound ].
Qed.

(** [tail_index] returns unless the envelope is empty or its largest level
    sits in the last window. *)
Theorem tail_index_outcomes (rms : list Q) (w : Q) :
  (rms = [] ->
   tail_index rms w
   = Raise (ValueError "attempt to get argmax of an empty sequence")) /\
  (forall p, argmax rms = Some p -> p + 1 = length rms ->
   tail_index rms w = Raise UnboundLocalError) /\
  (forall p, argmax rms = Some p -> p + 1 < length rms ->
   exists t, tail_index rms w = Ok t).
Proof.
  split; [ intros ->; reflexivity | ]. split.
  - intros p Hp Hlast. unfold tail_index. rewrite Hp.
    replace (length rms - (p + 1)) with 0 by lia. reflexivity.
  - intros p Hp Hroom. unfold tail_index. rewrite Hp.
    destruct (rise_loop_runs rms (p + 1) (length rms - (p + 1))) as [ r Hr ];
      [ lia | ].
    rewrite Hr. eauto.
Qed.



Lemma windows_of_length (x : list Q) (window_size n : nat) :
  length (windows_of x window_size n) = n.
Proof.
  revert x. induction n as [ | k IH ]; intro x; [ reflexivity | ].
  cbn [windows_of length]. now rewrite IH.
Qed.

Lemma iter_keeps_length (F : list Q -> list Q) (k : nat) (s : list Q) :
  (forall x, length (F x) = length x) -> length (Nat.iter k F s) = length s.
Proof.
  intro HF. induction k as [ | k IH ]; [ reflexivity | ].
  rewrite Nat.iter_succ, HF. exact IH.
Qed.

(** The analyzer needs a rate of at least 1 kHz for a non-zero window and at
    least eleven full windows for its smoothing filter; it then returns one
    level per full window. *)
Theorem impulse_response_decay_outcomes
  (window_level : list Q -> Q) (savgol_filter : list Q -> nat -> nat -> list Q)
  (impulse_response : list Q) (fs window_size_ms : nat) :
  (forall x, length (savgol_filter x 11 1) = length x) ->
  let window_size := fs / 1000 * window_size_ms in
  (window_size = 0 \/ length impulse_response < window_size ->
   impulse_response_decay window_level savgol_filter impulse_response
     fs window_size_ms = Raise ZeroDivisionError) /\
  (0 < window_size ->
   window_size <= length impulse_response < 11 * window_size ->
   exists msg,
     impulse_response_decay window_level savgol_filter impulse_response
       fs window_size_ms = Raise (ValueError msg)) /\
  (0 < window_size ->
   11 * window_size <= length impulse_response ->
   exists smoothed,
     impulse_response_decay window_level savgol_filter impulse_response
       fs window_size_ms = Ok smoothed /\
     length smoothed = length impulse_response / window_size).
Proof.
  intros Hsg ws. unfold impulse_response_decay. fold ws.
  split; [ | split ].
  - intros [ -> | Hshort ]; [ reflexivity | ].
    destruct (Nat.eqb_spec ws 0) as [ | Hws ]; [ reflexivity | ].
    rewrite (Nat.div_small _ _ Hshort). reflexivity.
  - intros Hws [ Hlo Hhi ].
    destruct (Nat.eqb_spec ws 0) as [ ? | _ ]; [ lia | ].
    assert (H1 : 1 <= length impulse_response / ws)
      by (apply Nat.div_le_lower_bound; lia).
    assert (H2 : length impulse_response / ws < 11)
      by (apply Nat.Div0.div_lt_upper_bound; lia).
    destruct (Nat.eqb_spec (length impulse_response / ws) 0) as [ ? | _ ]; [ lia | ].
    destruct (Nat.ltb_spec (length impulse_response / ws) 11) as [ _ | ? ]; [ | lia ].
    eauto.
  - intros Hws Hlong.
    destruct (Nat.eqb_spec ws 0) as [ ? | _ ]; [ lia | ].
    assert (H1 : 11 <= length impulse_response / ws)
      by (apply Nat.div_le_lower_bound; lia).
    destruct (Nat.eqb_spec (length impulse_response / ws) 0) as [ ? | _ ]; [ lia | ].
    destruct (Nat.ltb_spec (length impulse_response / ws) 11) as [ ? | _ ]; [ lia | ].
    eexists. split; [ reflexivity | ].
    rewrite iter_keeps_length by (intro x; apply Hsg).
    now rewrite length_map, windows_of_length.
Qed.

Lemma impulse_response_decay_outcomes_witness :
  exists smoothed,
    impulse_response_decay magnitude_level identity_filter
      (repeat 1%Q 25) (2 * 1000) 1 = Ok smoothed /\
    length smoothed = 12.
Proof.
  destruct (impulse_response_decay_outcomes magnitude_level identity_filter
              (repeat 1%Q 25) (2 * 1000) 1) as (_ & _ & Hok).
  - reflexivity.
  - apply Hok.
    + apply Nat.ltb_lt. vm_compute. reflexivity.
    + apply Nat.leb_le. vm_compute. reflexivity.
Defined.

(** The samples after the last full window do not reach the envelope. *)
Theorem impulse_response_decay_drops_partial_window
  (window_level : list Q -> Q) (savgol_filter : list Q -> nat -> nat -> list Q)
  (impulse_response : list Q) (fs window_size_ms : nat) :
  let window_size := fs / 1000 * window_size_ms in
  impulse_response_decay window_level savgol_filter
    (firstn (length impulse_response / window_size * window_size)
            impulse_response) fs window_size_ms
  = impulse_response_decay window_level savgol_filter impulse_response
      fs window_size_ms.
Proof.
  intro ws. unfold impulse_response_decay. fold ws.
  destruct (Nat.eqb_spec ws 0) as [ | Hws ]; [ reflexivity | ].
  set (n := length impulse_response / ws).
  assert (Hfit : n * ws <= length impulse_response)
    by (unfold n; rewrite Nat.mul_comm; apply Nat.Div0.mul_div_le).
  assert (Hn : length (firstn (n * ws) impulse_response) / ws = n).
  { rewrite length_firstn, Nat.min_l by exact Hfit. now apply Nat.div_mul. }
  rewrite Hn. rewrite firstn_firstn, Nat.min_id. reflexivity.
Qed.

Lemma impulse_response_decay_length
  (window_level : list Q -> Q) (savgol_filter : list Q -> nat -> nat -> list Q)
  (impulse_response rms : list Q) (fs window_size_ms : nat) :
  (forall x, length (savgol_filter x 11 1) = length x) ->
  impulse_response_decay window_level savgol_filter impulse_response
    fs window_size_ms = Ok rms ->
  fs / 1000 * window_size_ms <> 0 /\
  length rms = length impulse_response / (fs / 1000 * window_size_ms).
Proof.
  intros Hsg. unfold impulse_response_decay.
  set (ws := fs / 1000 * window_size_ms).
  set (n := length impulse_response / ws).
  destruct (Nat.eqb_spec ws 0) as [ | Hws ]; [ discriminate | ].
  destruct (n =? 0); [ discriminate | ].
  destruct (n <? 11); [ discriminate | ].
  intro H. split; [ exact Hws | ].
  apply (f_equal (fun r => match r with Ok v => length v | Raise _ => 0 end)) in H.
  cbv beta iota in H. rewrite <- H.
  rewrite iter_keeps_length by (intro x; apply Hsg).
  now rewrite length_map, windows_of_length.
Qed.

(** At a rate that is a whole number of kHz, the tail index computed on the
    envelope of a channel is a sample index inside that channel. *)
Theorem tail_index_inside_channel
  (window_level : list Q -> Q) (savgol_filter : list Q -> nat -> nat -> list Q)
  (track rms : list Q) (khz : nat) (t : Z) :
  (forall x, length (savgol_filter x 11 1) = length x) ->
  impulse_response_decay window_level savgol_filter track (1000 * khz) 1
    = Ok rms ->
  tail_index rms (Qnat (1000 * khz) / 1000) = Ok t ->
  (0 <= t < Z.of_nat (length track))%Z.
Proof.
  intros Hsg Hd Ht.
  destruct (Nat.eq_dec khz 0) as [ -> | Hk ]; [ discriminate Hd | ].
  assert (Hws : 1000 * khz / 1000 * 1 = khz).
  { rewrite Nat.mul_1_r, Nat.mul_comm. now apply Nat.div_mul. }
  apply (impulse_response_decay_length _ _ _ _ _ _ Hsg) in Hd.
  rewrite Hws in Hd. destruct Hd as [ _ Hlen ].
  apply tail_index_first_below in Ht.
  destruct Ht as (nf & k & _ & Hklen & _ & _ & ->).
  rewrite Hlen in Hklen.
  assert (E : py_int (Qnat k * (Qnat (1000 * khz) / 1000)) = Z.of_nat (k * khz)).
  { apply py_int_whole. unfold Qnat.
    rewrite !Nat2Z.inj_mul, !inject_Z_mult. simpl inject_Z at 2. field. }
  rewrite E.
  assert (Hm : khz * (length track / khz) <= length track)
    by (apply Nat.Div0.mul_div_le).
  nia.
Qed.

Lemma tail_index_inside_channel_witness :
  (0 <= 2 < Z.of_nat (length (1 :: 1 :: 5 :: 5 :: 10 :: 10 :: repeat 5 16)%Q))%Z.
Proof.
  apply (tail_index_inside_channel magnitude_level identity_filter
           (1 :: 1 :: 5 :: 5 :: 10 :: 10 :: repeat 5 16)%Q
           ([-2; -10; -20] ++ repeat (-10) 8)%Q 2 2).
  - reflexivity.
  - vm_compute. reflexivity.
  - vm_compute. reflexivity.
Defined.

(** ** Head aligner: further properties *)

Lemma crop_ir_head_ordering_error_witness :
  crop_ir_head scipy_find_peaks unit_window
    [0; 0; 1; 0; 0]%Q [0; 0; 0; 1 # 2; 0]%Q "FR" (8 * 1000) 1
  = Raise (ValueError (left_first_msg "FR")).
Proof.
  apply (proj1 (crop_ir_head_ordering_error scipy_find_peaks unit_window
                  [0; 0; 1; 0; 0]%Q [0; 0; 0; 1 # 2; 0]%Q "FR" (8 * 1000) 1
                  2 3 9%Z
                  ltac:(vm_compute; reflexivity)
                  ltac:(vm_compute; reflexivity)
                  ltac:(vm_compute; reflexivity))).
  split; [ lia | reflexivity ].
Defined.

Lemma imul_head_length (head : nat) (window x y : list Q) :
  imul_head head window x = Ok y -> length y = length x.
Proof.
  unfold imul_head.
  destruct (Nat.eqb_spec (length window) (length (firstn head x))) as [ E | _ ].
  - intro H. inversion H; subst; clear H.
    rewrite length_app, length_map, length_combine, length_skipn.
    rewrite E, Nat.min_id, length_firstn. lia.
  - destruct (length window =? 1); [ | discriminate ].
    intro H. inversion H; subst; clear H.
    rewrite length_app, length_map, length_skipn, length_firstn. lia.
Qed.

Lemma slice_from_length {A : Type} (start : Z) (x : list A) :
  length (slice_from start x) = length x - adjust_index (length x) start.
Proof. unfold slice_from. apply length_skipn. Qed.

(** Whatever the peaks, a pair that [crop_ir_head] returns for two channels
    of equal length has two channels of equal length again, none longer
    than before: the cropped pair can still be stacked. *)
Theorem crop_ir_head_keeps_pair_aligned
  (find_peaks : list Q -> Q -> list nat) (kaiser : nat -> Q -> list Q)
  (left right left' right' : list Q) (speaker : string) (fs head_ms : nat) :
  length left = length right ->
  crop_ir_head find_peaks kaiser left right speaker fs head_ms
    = Ok (left', right') ->
  length left' = length right' /\ length left' <= length left.
Proof.
  intros Hlen H.
  destruct (first_peak find_peaks left) as [ pl | e ] eqn:Epl;
    [ | unfold crop_ir_head in H; rewrite Epl in H; discriminate H ].
  destruct (first_peak find_peaks right) as [ pr | e ] eqn:Epr;
    [ | unfold crop_ir_head in H; rewrite Epl, Epr in H; discriminate H ].
  destruct (channel_delay speaker fs head_ms) as [ delay | e ] eqn:Ed;
    [ | unfold crop_ir_head in H; rewrite Epl, Epr in H; cbn [bind] in H;
        rewrite Ed in H; discriminate H ].
  destruct (side_decidable speaker) as [ HR HL ].
  assert (Hside : (pl < pr /\ ~ right_side speaker) \/
                  (pr <= pl /\ ~ left_side speaker)).
  { destruct (Nat.lt_ge_cases pl pr) as [ Hlt | Hge ].
    - destruct HR as [ HR | HR ]; [ | left; now split ].
      rewrite (crop_ir_head_left_first find_peaks kaiser _ _ _ _ _ _ _ _
                 Epl Epr Ed Hlt HR) in H.
      discriminate H.
    - destruct HL as [ HL | HL ]; [ | right; now split ].
      rewrite (crop_ir_head_right_first find_peaks kaiser _ _ _ _ _ _ _ _
                 Epl Epr Ed Hge HL) in H.
      discriminate H. }
  rewrite (crop_ir_head_passes find_peaks kaiser _ _ _ _ _ _ _ _
             Epl Epr Ed Hside) in H.
  destruct (imul_head _ _ (slice_from _ left)) as [ l1 | e ] eqn:El;
    [ | discriminate H ].
  cbn [bind] in H.
  destruct (imul_head _ _ (slice_from _ right)) as [ r1 | e ] eqn:Er;
    [ | discriminate H ].
  cbn [bind] in H. inversion H; subst; clear H.
  apply imul_head_length in El. apply imul_head_length in Er.
  rewrite slice_from_length in El, Er. rewrite El, Er, Hlen. lia.
Qed.

Lemma crop_ir_head_keeps_pair_aligned_witness :
  exists left' right',
    crop_ir_head scipy_find_peaks unit_window
      (repeat 0%Q 9 ++ [1; 0; 0]%Q) (repeat 0%Q 10 ++ [1; 0]%Q)
      "FL" (8 * 1000) 1 = Ok (left', right') /\
    length left' = length right'.
Proof.
  eexists. eexists. split; [ vm_compute; reflexivity | ].
  apply (crop_ir_head_keeps_pair_aligned scipy_find_peaks unit_window
           (repeat 0%Q 9 ++ [1; 0; 0]%Q) (repeat 0%Q 10 ++ [1; 0]%Q)
           _ _ "FL" (8 * 1000) 1).
  - reflexivity.
  - vm_compute. reflexivity.
Defined.

(** ** The loops of [main] *)

Lemma tail_indices_of_silent
  (decay : list Q -> nat -> nat -> result (list Q)) (fs : nat)
  (cropped : list (list Q)) :
  Forall (fun track => nonsilent track = false) cropped ->
  tail_indices_of decay fs cropped = Ok [].
Proof.
  induction 1 as [ | track rest Hs _ IH ]; [ reflexivity | ].
  cbn [tail_indices_of]. now rewrite Hs.
Qed.

(** When every cropped response is silent there is no tail index to take the
    maximum of, and the tail crop stops in [max]. *)
Theorem crop_tails_all_silent
  (decay : list Q -> nat -> nat -> result (list Q)) (fs : nat)
  (cropped : list (list Q)) :
  Forall (fun track => nonsilent track = false) cropped ->
  crop_tails decay fs cropped
  = Raise (ValueError "max() arg is an empty sequence").
Proof.
  intro H. unfold crop_tails, truncate_tails, tail_cutoff.
  rewrite (tail_indices_of_silent decay fs cropped H). reflexivity.
Qed.

Lemma crop_tails_all_silent_witness :
  crop_tails (table_decay long_envelope short_envelope) (8 * 1000)
    [[0; 0; 0]; [0; 0; 0]]%Q
  = Raise (ValueError "max() arg is an empty sequence").
Proof.
  apply (crop_tails_all_silent (table_decay long_envelope short_envelope)
           (8 * 1000) [[0; 0; 0]; [0; 0; 0]]%Q).
  repeat constructor.
Defined.

Section MainLoopsFacts.

Variable exp_taper : nat -> nat -> nat -> Q.
Variable probe_magnitude : list Q -> Q.
Variable fft_division : list Q -> list Q -> list Q.
Variable find_peaks : list Q -> Q -> list nat.
Variable kaiser : nat -> Q -> list Q.
Variable decay : list Q -> nat -> nat -> result (list Q).

(** What a completed run of the head-cropping loop from row [i] says about
    the pair starting at row [i + 2 * k]. *)
Lemma crop_heads_from (impulse_responses : list (list Q)) (fs : nat)
  (steps i : nat) (out : list (list Q)) :
  crop_heads find_peaks kaiser decay impulse_responses fs i steps = Ok out ->
  length impulse_responses <= i + 2 * steps ->
  length out = length impulse_responses - i /\
  (exists h, length impulse_responses - i = 2 * h) /\
  forall k, i + 2 * k < length impulse_responses ->
    exists left_ir right_ir speaker left' right',
      nth_error impulse_responses (i + 2 * k) = Some left_ir /\
      nth_error impulse_responses (i + 2 * k + 1) = Some right_ir /\
      nth_error SPEAKER_NAMES ((i + 2 * k) / 2) = Some speaker /\
      nth_error out (2 * k) = Some left' /\
      nth_error out (2 * k + 1) = Some right' /\
      nonsilent left_ir = nonsilent right_ir /\
      (nonsilent left_ir = false -> left' = left_ir /\ right' = right_ir) /\
      (nonsilent left_ir = true ->
       (exists rms, decay left_ir fs 1 = Ok rms) /\
       (exists rms, decay right_ir fs 1 = Ok rms) /\
       crop_ir_head find_peaks kaiser left_ir right_ir speaker fs 1
       = Ok (left', right')).
Proof.
  revert i out. induction steps as [ | n IH ]; intros i out H Hfuel.
  - cbn [crop_heads] in H. inversion H; subst; clear H.
    replace (length impulse_responses - i) with 0 by lia.
    split; [ reflexivity | ]. split; [ now exists 0 | ]. intros k Hk. lia.
  - cbn [crop_heads] in H.
    destruct (Nat.ltb_spec i (length impulse_responses)) as [ Hi | Hi ].
    + destruct (nth_error impulse_responses i) as [ l | ] eqn:El;
        [ | discriminate H ].
      destruct (nth_error impulse_responses (i + 1)) as [ r | ] eqn:Er;
        [ | discriminate H ].
      destruct (nth_error SPEAKER_NAMES (i / 2)) as [ sp | ] eqn:Es;
        [ | discriminate H ].
      assert (Hi1 : i + 1 < length impulse_responses).
      { apply nth_error_Some. rewrite Er. discriminate. }
      match type of H with
      | bind ?p _ = _ => destruct p as [ [ l' r' ] | e ] eqn:Ep
      end; [ | discriminate H ].
      cbn [bind fst snd] in H.
      destruct (crop_heads find_peaks kaiser decay impulse_responses fs (i + 2) n)
        as [ rest | e ] eqn:Erest; [ | discriminate H ].
      cbn [bind] in H. inversion H; subst; clear H.
      destruct (IH (i + 2) rest Erest) as (Hlen & [ h Hh ] & Hpairs); [ lia | ].
      split; [ cbn [length]; lia | ].
      split; [ exists (S h); lia | ].
      intros [ | k ] Hk.
      * exists l, r, sp, l', r'.
        replace (i + 2 * 0) with i by lia.
        repeat (split; [ first [ assumption | reflexivity ] | ]).
        destruct (nonsilent l), (nonsilent r); cbn [andb negb] in Ep.
        -- split; [ reflexivity | ]. split; [ discriminate | ]. intros _.
           destruct (decay l fs 1); [ | discriminate Ep ]. cbn [bind] in Ep.
           destruct (decay r fs 1); [ | discriminate Ep ].
           split; [ eauto | ]. split; [ eauto | exact Ep ].
        -- discriminate Ep.
        -- discriminate Ep.
        -- split; [ reflexivity | ]. split; [ | discriminate ]. intros _.
           inversion Ep. now split.
      * destruct (Hpairs k) as (a & b & s & a' & b' & H1 & H2 & H3 & H4 & H5 & H6);
          [ lia | ].
        exists a, b, s, a', b'.
        replace (i + 2 * S k) with (i + 2 + 2 * k) by lia.
        replace (2 * S k) with (S (S (2 * k))) by lia.
        cbn [nth_error Nat.add].
        repeat (split; [ assumption | ]). exact H6.
    + inversion H; subst; clear H.
      replace (length impulse_responses - i) with 0 by lia.
      split; [ reflexivity | ]. split; [ now exists 0 | ]. intros k Hk. lia.
Qed.

End MainLoopsFacts.

(** A completed head-cropping loop: the responses come in pairs, at most
    seven of them; the two ears of a pair are both silent or both not; a
    silent pair is passed on as it is, and any other pair is replaced by what
    [crop_ir_head] returns for it under the speaker name of its position,
    with a head room of 1 ms, after the decay analyzer has run on both ears. *)
Theorem crop_heads_pairs
  (find_peaks : list Q -> Q -> list nat) (kaiser : nat -> Q -> list Q)
  (decay : list Q -> nat -> nat -> result (list Q))
  (impulse_responses : list (list Q)) (fs steps : nat)
  (cropped : list (list Q)) :
  length impulse_responses <= 2 * steps ->
  crop_heads find_peaks kaiser decay impulse_responses fs 0 steps
    = Ok cropped ->
  length cropped = length impulse_responses /\
  (exists pairs, length impulse_responses = 2 * pairs /\ pairs <= 7) /\
  forall k, 2 * k < length impulse_responses ->
    exists left_ir right_ir speaker left' right',
      nth_error impulse_responses (2 * k) = Some left_ir /\
      nth_error impulse_responses (2 * k + 1) = Some right_ir /\
      nth_error SPEAKER_NAMES k = Some speaker /\
      nth_error cropped (2 * k) = Some left' /\
      nth_error cropped (2 * k + 1) = Some right' /\
      nonsilent left_ir = nonsilent right_ir /\
      (nonsilent left_ir = false -> left' = left_ir /\ right' = right_ir) /\
      (nonsilent left_ir = true ->
       (exists rms, decay left_ir fs 1 = Ok rms) /\
       (exists rms, decay right_ir fs 1 = Ok rms) /\
       crop_ir_head find_peaks kaiser left_ir right_ir speaker fs 1
       = Ok (left', right')).
Proof.
  intros Hfuel H.
  destruct (crop_heads_from find_peaks kaiser decay impulse_responses fs
              steps 0 cropped H) as (Hlen & [ h Hh ] & Hpairs); [ lia | ].
  rewrite Nat.sub_0_r in Hlen, Hh.
  assert (Hk : forall k, 2 * k < length impulse_responses ->
            exists left_ir right_ir speaker left' right',
              nth_error impulse_responses (2 * k) = Some left_ir /\
              nth_error impulse_responses (2 * k + 1) = Some right_ir /\
              nth_error SPEAKER_NAMES k = Some speaker /\
              nth_error cropped (2 * k) = Some left' /\
              nth_error cropped (2 * k + 1) = Some right' /\
              nonsilent left_ir = nonsilent right_ir /\
              (nonsilent left_ir = false -> left' = left_ir /\ right' = right_ir) /\
              (nonsilent left_ir = true ->
               (exists rms, decay left_ir fs 1 = Ok rms) /\
               (exists rms, decay right_ir fs 1 = Ok rms) /\
               crop_ir_head find_peaks kaiser left_ir right_ir speaker fs 1
               = Ok (left', right'))).
  { intros k Hk. specialize (Hpairs k Hk).
    replace (0 + 2 * k) with (2 * k) in Hpairs by lia.
    replace (2 * k / 2) with k in Hpairs
      by (rewrite Nat.mul_comm; symmetry; now apply Nat.div_mul).
    exact Hpairs. }
  split; [ exact Hlen | ]. split; [ | exact Hk ].
  exists h. split; [ exact Hh | ].
  destruct h as [ | h' ]; [ lia | ].
  destruct (Hk h') as (_ & _ & sp & _ & _ & _ & _ & Hs & _); [ lia | ].
  assert (Hlt : h' < length SPEAKER_NAMES).
  { apply nth_error_Some. rewrite Hs. discriminate. }
  cbn [SPEAKER_NAMES length] in Hlt. lia.
Qed.

Lemma crop_heads_pairs_witness :
  exists cropped,
    crop_heads scipy_find_peaks unit_window
      (table_decay long_envelope short_envelope)
      [repeat 0 9 ++ [1; 0; 0; 0; 0]; repeat 0 11 ++ [1; 0; 0];
       repeat 0 14; repeat 0 14]%Q
      (8 * 1000) 0 2 = Ok cropped /\
    length cropped = 4 /\
    nth_error cropped 2 = Some (repeat 0%Q 14).
Proof.
  eexists. split; [ vm_compute; reflexivity | ].
  destruct (crop_heads_pairs scipy_find_peaks unit_window
              (table_decay long_envelope short_envelope)
              [repeat 0 9 ++ [1; 0; 0; 0; 0]; repeat 0 11 ++ [1; 0; 0];
       repeat 0 14; repeat 0 14]%Q
              (8 * 1000) 2 _
              ltac:(simpl; lia) ltac:(vm_compute; reflexivity))
    as (Hlen & _ & _).
  split; [ exact Hlen | reflexivity ].
Defined.

Lemma deconv_window_size (recording inv_filter : list Q) (n : nat) :
  0 < n -> length inv_filter = n -> length recording = n ->
  length (firstn (n + 1) (skipn n (convolve_full recording inv_filter ++ [0%Q])))
  = n.
Proof.
  intros Hn Hinv Hrec.
  assert (Hfull : length (convolve_full recording inv_filter) = 2 * n - 1).
  { rewrite convolve_full_length; [ lia | | ].
    - intro E. rewrite E in Hrec. simpl in Hrec. lia.
    - intro E. rewrite E in Hinv. simpl in Hinv. lia. }
  rewrite length_firstn, length_skipn, length_app, Hfull. simpl. lia.
Qed.

(** For a well-formed recording with at least one track and two samples per
    track, a reference no longer than the tracks, a non-zero rate and a
    non-zero normalisation probe, the deconvolution loop returns one
    response per track, each exactly as long as the tracks, so that the
    responses stack; a silent track gives an all-zero response. *)
Theorem estimate_responses_shape
  (exp_taper : nat -> nat -> nat -> Q) (probe_magnitude : list Q -> Q)
  (fft_division : list Q -> list Q -> list Q)
  (recording : ndarray2) (test_signal : list Q) (fs : nat) :
  wf_ndarray2 recording ->
  rows recording <> [] ->
  2 <= shape1 recording ->
  length test_signal <= shape1 recording ->
  fs <> 0 ->
  (let reference :=
     test_signal ++ zeros (shape1 recording - length test_signal) in
   ~ (probe_magnitude
        (convolve_full (weighted_flip exp_taper reference fs) reference)
      == 0)%Q) ->
  exists impulse_responses,
    estimate_responses exp_taper probe_magnitude fft_division
      recording test_signal fs = Ok impulse_responses /\
    shape0 impulse_responses = shape0 recording /\
    shape1 impulse_responses = shape1 recording /\
    wf_ndarray2 impulse_responses /\
    forall i track,
      nth_error (rows recording) i = Some track ->
      nonsilent track = false ->
      nth_error (rows impulse_responses) i = Some (zeros (shape1 recording)).
Proof.
  intros Hwf Hne Hw Hts Hfs Hprobe. cbv zeta in Hprobe.
  set (W := shape1 recording) in *.
  set (reference := test_signal ++ zeros (W - length test_signal)) in *.
  assert (Hreflen : length reference = W).
  { unfold reference, zeros. rewrite length_app, repeat_length. lia. }
  assert (Hrefne : reference <> []).
  { intro E. rewrite E in Hreflen. simpl in Hreflen. lia. }
  set (g := fun track : list Q =>
              if nonsilent track then
                firstn (length reference + 1)
                  (skipn (length reference)
                     (convolve_full track
                        (inverse_filter exp_taper probe_magnitude reference fs)
                      ++ [0%Q]))
              else zeros W).
  unfold estimate_responses, zero_pad. cbn [shape1 rows].
  fold W.
  destruct (Z.ltb_spec (Z.of_nat W - Z.of_nat (length test_signal)) 0) as [ ? | _ ];
    [ lia | ].
  cbn [bind rows map hd].
  replace (Z.to_nat (Z.of_nat W - Z.of_nat (length test_signal)))
    with (W - length test_signal) by lia.
  fold reference.
  rewrite (map_result_ok _ g).
  2:{ intros track _. unfold g.
      destruct (nonsilent track); [ | reflexivity ].
      apply deconv_inverse_filter; [ lia | assumption | assumption ]. }
  cbn [bind].
  assert (Hall : Forall (fun r => length r = W) (map g (rows recording))).
  { apply Forall_forall. intros r Hr. apply in_map_iff in Hr.
    destruct Hr as (track & <- & Hin). unfold g.
    destruct (nonsilent track).
    - rewrite Hreflen. apply deconv_window_size; [ lia | | ].
      + rewrite <- Hreflen. apply inverse_filter_length.
      + unfold wf_ndarray2 in Hwf. rewrite Forall_forall in Hwf.
        now apply Hwf.
    - apply repeat_length. }
  rewrite (vstack_equal_lengths _ W).
  - eexists. split; [ reflexivity | ].
    unfold shape0. cbn [rows shape1]. rewrite length_map.
    repeat (split; [ first [ reflexivity | exact Hall ] | ]).
    intros i track Hi Hs. rewrite nth_error_map, Hi. cbn [option_map].
    unfold g. now rewrite Hs.
  - destruct (rows recording); [ contradiction | discriminate ].
  - exact Hall.
Qed.

Lemma estimate_responses_shape_witness :
  exists impulse_responses,
    estimate_responses flat_taper unit_probe no_fft
      (mk_ndarray2 3 [[1; 2; 3]; [0; 0; 0]]%Q) [1; 1]%Q (48 * 1000)
      = Ok impulse_responses /\
    shape0 impulse_responses = 2 /\
    shape1 impulse_responses = 3.
Proof.
  destruct (estimate_responses_shape flat_taper unit_probe no_fft
              (mk_ndarray2 3 [[1; 2; 3]; [0; 0; 0]]%Q) [1; 1]%Q (48 * 1000))
    as (out & Hok & H0 & H1 & _).
  - repeat constructor.
  - discriminate.
  - simpl. lia.
  - simpl. lia.
  - discriminate.
  - vm_compute. discriminate.
  - exists out. repeat split; assumption.
Defined.

(** ** The opening of [main] *)

(** [main] never gets past its plot dictionary: files with different rates
    are refused; with equal rates a failure to create the output directory
    is passed on, and otherwise the first entry of the dictionary already
    asks the 2-by-2 axes array for a third row.  No recording is ever
    processed. *)
Theorem main_never_processes {A : Type} (fs_rec fs_ts : nat) (isdir : bool)
  (makedirs : result unit) (processing : result A) :
  main fs_rec fs_ts isdir makedirs processing
  = Raise (if negb (fs_rec =? fs_ts) then ValueError rate_msg
           else if isdir then IndexError
           else match makedirs with
                | Ok _ => IndexError
                | Raise e => e
                end).
Proof.
  unfold main. destruct (fs_rec =? fs_ts); cbn [negb]; [ | reflexivity ].
  destruct isdir; cbn [negb]; [ reflexivity | ].
  destruct makedirs as [ [] | e ]; reflexivity.
Qed.
